(** * RigidMultiblobsWall: the constrained integrator and the blob-blob forces

    A shallow embedding of

    - [constrained_integrator.py]: the class [ConstrainedIntegrator] with its
      constructor and the methods [TimeStep], [ApplyMobility],
      [EulerTimeStep] and [RFDTimeStep];
    - [multi_bodies/multi_bodies_functions.py]: [set_blob_blob_forces],
      [blob_blob_force], [calc_blob_blob_forces_python],
      [blob_external_force], [calc_one_blob_forces], [default_zero_blobs],
      [set_slip_by_ID] and [active_body_slip].

    Conventions of the embedding.

    - A Python exception is a value of [exception]; a call that may raise
      returns a [result].  A method of the integrator takes the object and
      returns the outcome together with the object as the call left it, also
      when the call raised.
    - Python floats are an abstract type [num] with the operations the code
      applies to them (class [Number]).  The definitions assume nothing about
      these operations.  A theorem that needs algebraic laws asks for them
      through the class [ExactArith]; the real numbers are an instance.
      IEEE doubles ([binary64]) have the operations of [Number] and do not
      satisfy the laws.
    - The operations of [Number] are numpy's, which return infinities and
      NaN and do not raise.  The quotient of two Python floats raises
      [ZeroDivisionError] for a zero divisor ([truediv]).
    - A global name is looked up when the statement that uses it runs; an
      unbound one raises [NameError].
    - A Python list or numpy array read and written by index is a [list]
      with stdpp's lookup and insert; an index out of range raises
      [IndexError], as in Python.
    - [print] statements write to standard output only and are not
      modelled. *)

From Stdlib Require Import ZArith Reals Lra SpecFloat.
From stdpp Require Import base decidable option list strings gmap.

Set Default Proof Using "Type*".
Local Open Scope nat_scope.

(** ** Exceptions and results *)

Inductive exception : Type :=
  | SystemExit                          (* sys.exit() *)
  | NotImplementedError (msg : string)
  | IndexError                          (* index out of range *)
  | NameError (name : string)           (* unbound global name *)
  | TypeError                           (* arithmetic on None *)
  | ZeroDivisionError.                  (* float division by zero *)

Inductive result (A : Type) : Type :=
  | Ok (a : A)
  | Raise (e : exception).
Arguments Ok {A} a.
Arguments Raise {A} e.

#[global] Instance result_ret : MRet result := fun A a => Ok a.
#[global] Instance result_bind : MBind result := fun A B f r =>
  match r with
  | Ok a => f a
  | Raise e => Raise e
  end.

(** [seq[i]] for a non-negative index. *)
Definition getitem {A} (l : list A) (i : nat) : result A :=
  match l !! i with
  | Some a => Ok a
  | None => Raise IndexError
  end.

(** [for a in l: s = body(a, s)], stopping at the first exception. *)
Fixpoint for_each {A S} (l : list A) (body : A → S → result S) (s : S)
  : result S :=
  match l with
  | [] => Ok s
  | a :: l' => s' ← body a s; for_each l' body s'
  end.

(** [range(n)] and [range(a, b)]. *)
Definition range (n : nat) : list nat := seq 0 n.
Definition range2 (a b : nat) : list nat := seq a (b - a).

(** ** Numbers *)

Class Number (num : Type) : Type := {
  nzero : num;
  nadd : num → num → num;
  nsub : num → num → num;
  nmul : num → num → num;
  ndiv : num → num → num;
  nopp : num → num;
  nabs : num → num;
  nexp : num → num;
  nsqrt : num → num;
  nltb : num → num → bool;
  nis_zero : num → bool;
}.

(** The laws of exact arithmetic; rounded floating-point arithmetic does not
    satisfy them. *)
Class ExactArith (num : Type) `{Number num} : Prop := {
  nadd_comm : ∀ a b : num, nadd a b = nadd b a;
  nadd_assoc : ∀ a b c : num, nadd a (nadd b c) = nadd (nadd a b) c;
  nadd_0_l : ∀ a : num, nadd nzero a = a;
  nsub_def : ∀ a b : num, nsub a b = nadd a (nopp b);
  nadd_opp_r : ∀ a : num, nadd a (nopp a) = nzero;
  nmul_comm : ∀ a b : num, nmul a b = nmul b a;
  nmul_assoc : ∀ a b c : num, nmul a (nmul b c) = nmul (nmul a b) c;
  nmul_0_r : ∀ a : num, nmul a nzero = nzero;
  nmul_add_distr_l : ∀ a b c : num, nmul a (nadd b c) = nadd (nmul a b) (nmul a c);
}.

#[global] Instance R_number : Number R := {|
  nzero := 0%R;
  nadd := Rplus;
  nsub := Rminus;
  nmul := Rmult;
  ndiv := Rdiv;
  nopp := Ropp;
  nabs := Rabs;
  nexp := exp;
  nsqrt := sqrt;
  nltb := fun a b => if Rlt_dec a b then true else false;
  nis_zero := fun a => if Req_dec_T a 0 then true else false;
|}.

(** ** constrained_integrator.py *)

Section ConstrainedIntegrator.
Context {num : Type} `{Number num}.

(** The attributes [__init__] gives the object.  The surface function takes
    the coordinates and returns the value of the constraint. *)
Record ConstrainedIntegrator : Type := {
  surface_function : list num → num;
  mobility : list (list num);
  dim : nat;
  current_time : num;
  scheme : string;
}.

(** A method: the outcome and the object after the call. *)
Definition method (A : Type) : Type :=
  ConstrainedIntegrator → result A * ConstrainedIntegrator.

Definition __init__ (surface_function : list num → num)
    (mobility : list (list num)) (scheme : string)
  : result ConstrainedIntegrator :=
  let dim := length mobility in
  _ ← for_each (range dim) (fun k (_ : unit) =>
         row ← getitem mobility k;
         if decide (length row ≠ dim) then Raise SystemExit else Ok ()) ();
  let current_time := nzero in
  if decide (scheme ∉ ["RFD"; "EULER"])
  then Raise (NotImplementedError "Only RFD and Euler schemes are implemented")
  else Ok {| surface_function := surface_function; mobility := mobility;
             dim := dim; current_time := current_time; scheme := scheme |}.

(** Both stepping methods have the body [pass]. *)
Definition EulerTimeStep (dt : num) : method unit :=
  fun self => (Ok (), self).

Definition RFDTimeStep (dt : num) : method unit :=
  fun self => (Ok (), self).

Definition TimeStep (dt : num) : method unit :=
  fun self =>
    if decide (scheme self = "RFD") then RFDTimeStep dt self
    else if decide (scheme self = "EULER") then EulerTimeStep dt self
    else (Raise SystemExit, self).

(** numpy's [zeros(n)]. *)
Definition numpy_zeros (n : nat) : list num := replicate n nzero.

(** The method, run in a module whose global name [zeros] is bound to
    [zeros], or is unbound ([None]).  The name is looked up by the first
    statement, [velocity = zeros(self.dim)]. *)
Definition ApplyMobility_in (zeros : option (nat → list num))
    (force : list num) : method (list num) :=
  fun self =>
    match zeros with
    | None => (Raise (NameError "zeros"), self)
    | Some zeros =>
        let velocity := zeros (dim self) in
        (for_each (range (dim self)) (fun j velocity =>
           for_each (range (dim self)) (fun k velocity =>
             v ← getitem velocity j;
             row ← getitem (mobility self) j;
             m ← getitem row k;
             f ← getitem force k;
             Ok (<[j := nadd v (nmul m f)]> velocity)) velocity) velocity,
         self)
    end.

(** The method as the file has it: its only import is [sys] and it defines
    no [zeros], so the name is unbound. *)
Definition ApplyMobility (force : list num) : method (list num) :=
  ApplyMobility_in None force.

End ConstrainedIntegrator.

Arguments ConstrainedIntegrator num : clear implicits.

(** ** multi_bodies/multi_bodies_functions.py *)

(** The function objects [set_blob_blob_forces] chooses from. *)
Inductive function_object : Type :=
  | Fn_default_zero_r_vectors
  | Fn_calc_blob_blob_forces_python
  | Fn_calc_blob_blob_forces_boost
  | Fn_forces_pycuda_calc_blob_blob_forces_pycuda.

(** The module imports [forces_pycuda] only when [found_pycuda] is true, so
    the name is unbound otherwise.  Python's [None] is [None]: the function
    falls off its end when no branch is taken. *)
Definition set_blob_blob_forces (found_pycuda : bool) (implementation : string)
  : result (option function_object) :=
  if decide (implementation = "None") then
    Ok (Some Fn_default_zero_r_vectors)
  else if decide (implementation = "python") then
    Ok (Some Fn_calc_blob_blob_forces_python)
  else if decide (implementation = "C++") then
    Ok (Some Fn_calc_blob_blob_forces_boost)
  else if decide (implementation = "pycuda") then
    if found_pycuda then Ok (Some Fn_forces_pycuda_calc_blob_blob_forces_pycuda)
    else Raise (NameError "forces_pycuda")
  else Ok None.

Section MultiBodies.
Context {num : Type} `{Number num}.

(** A row of an array of shape [(Nblobs, 3)]. *)
Definition vec : Type := num * num * num.

Definition vzero : vec := (nzero, nzero, nzero).
Definition vadd (u v : vec) : vec :=
  let '(a, b, c) := u in let '(x, y, z) := v in (nadd a x, nadd b y, nadd c z).
Definition vsub (u v : vec) : vec :=
  let '(a, b, c) := u in let '(x, y, z) := v in (nsub a x, nsub b y, nsub c z).
(** [c * r] and [r / c] for a scalar [c]. *)
Definition vscale (c : num) (r : vec) : vec :=
  let '(x, y, z) := r in (nmul c x, nmul c y, nmul c z).
Definition vdiv (r : vec) (c : num) : vec :=
  let '(x, y, z) := r in (ndiv x c, ndiv y c, ndiv z c).

(** [np.linalg.norm(r)], the square root of [r . r]. *)
Definition norm (r : vec) : num :=
  let '(x, y, z) := r in nsqrt (nadd (nadd (nmul x x) (nmul y y)) (nmul z z)).

(** [a / b] for two Python floats. *)
Definition truediv (a b : num) : result num :=
  if nis_zero b then Raise ZeroDivisionError else Ok (ndiv a b).

(** [kwargs.get(key)] is [None] for a missing key, and arithmetic on [None]
    raises [TypeError].  The keyword arguments are Python floats, so
    [eps / b], the first quotient evaluated, raises [ZeroDivisionError] for
    [b] zero; [r_norm] and [r] are numpy's, and the other quotients are
    numpy's too.  The unary minus binds tighter than [*] and [/], and
    [r_norm**2] is the product of [r_norm] with itself. *)
Definition blob_blob_force (r : vec) (kwargs : gmap string num) : result vec :=
  let eps := kwargs !! "repulsion_strength" in
  let b := kwargs !! "debey_length" in
  let r_norm := norm r in
  match eps, b with
  | Some eps, Some b =>
      q ← truediv eps b;
      Ok (vdiv (vscale (nmul (nopp (nadd q (ndiv eps r_norm)))
                             (nexp (ndiv (nopp r_norm) b))) r)
               (nmul r_norm r_norm))
  | _, _ => Raise TypeError
  end.

(** [r_vectors.size] of an array of shape [(len, 3)]. *)
Definition size (r_vectors : list vec) : nat := length r_vectors * 3.

(** [force_blobs] starts as [np.zeros((Nblobs, 3))].  Without blobs
    [Nblobs - 1] is [-1] in Python and [0] here; [range] is empty for
    both. *)
Definition calc_blob_blob_forces_python (r_vectors : list vec)
    (kwargs : gmap string num) : result (list vec) :=
  let Nblobs := size r_vectors / 3 in
  let force_blobs := replicate Nblobs vzero in
  for_each (range (Nblobs - 1)) (fun i force_blobs =>
    for_each (range2 (i + 1) Nblobs) (fun j force_blobs =>
      rj ← getitem r_vectors j;
      ri ← getitem r_vectors i;
      let r := vsub rj ri in
      force ← blob_blob_force r kwargs;
      fi ← getitem force_blobs i;
      let force_blobs := <[i := vadd fi force]> force_blobs in
      fj ← getitem force_blobs j;
      Ok (<[j := vsub fj force]> force_blobs)) force_blobs) force_blobs.

(** The sum of the rows of an array of shape [(n, 3)]. *)
Definition total (forces : list vec) : vec := foldr vadd vzero forces.

End MultiBodies.

Arguments vec num : clear implicits.

(** ** Notions the properties are stated with *)

Section Notions.
Context {num : Type} `{Number num}.

(** Every row is as long as the matrix has rows. *)
Definition square (M : list (list num)) : Prop :=
  Forall (fun row => length row = length M) M.

(** The scheme names the constructor accepts. *)
Definition recognized (scheme : string) : Prop := scheme ∈ ["RFD"; "EULER"].

(** What the constructor establishes about the object. *)
Definition constructed (self : ConstrainedIntegrator num) : Prop :=
  dim self = length (mobility self) ∧ square (mobility self) ∧
  recognized (scheme self).

(** [n] calls of [TimeStep(dt)] in a row, stopping at the first that raises. *)
Fixpoint steps (n : nat) (dt : num) : method unit :=
  fun self =>
    match n with
    | 0 => (Ok (), self)
    | S n' =>
        match TimeStep dt self with
        | (Ok _, self') => steps n' dt self'
        | (Raise e, self') => (Raise e, self')
        end
    end.

(** The sum over [k] of [row[k] * force[k]], added up from zero in the order
    of [k], and the matrix-vector product. *)
Definition dot (row force : list num) : num :=
  foldl nadd nzero (zip_with nmul row force).

Definition matvec (M : list (list num)) (force : list num) : list num :=
  (fun row => dot row force) <$> M.

(** [a * F] and [F1 + F2] on vectors. *)
Definition scale (a : num) (F : list num) : list num := nmul a <$> F.
Definition add_vec (F1 F2 : list num) : list num := zip_with nadd F1 F2.

End Notions.

(** The unit circle in the plane, with the identity as mobility. *)
Definition circle (x : list R) : R :=
  match x with
  | [a; b] => (a * a + b * b - 1)%R
  | _ => 1%R
  end.

Definition circle_integrator (scheme : string) : ConstrainedIntegrator R :=
  {| surface_function := circle; mobility := [[1; 0]; [0; 1]]%R; dim := 2;
     current_time := 0%R; scheme := scheme |}.

(** Three blobs, and the keyword arguments [blob_blob_force] reads. *)
Definition three_blobs : list (vec R) := [(0, 0, 0); (1, 0, 0); (0, 2, 0)]%R.

Definition yukawa : gmap string R :=
  {["repulsion_strength" := 1%R; "debey_length" := 2%R]}.

(** The same with a zero [debey_length]. *)
Definition yukawa_zero_length : gmap string R :=
  {["repulsion_strength" := 1%R; "debey_length" := 0%R]}.

(** The implementation names with a branch in [set_blob_blob_forces]. *)
Definition implementations : list string := ["None"; "python"; "C++"; "pycuda"].

(** ** multi_bodies/multi_bodies_functions.py, further functions *)

(** The float literal [1.0]. *)
Class One (num : Type) : Type := none : num.

#[global] Instance R_one : One R := 1%R.

(** How a sign passes through a product and a quotient.  These laws hold
    for the reals and, rounding being symmetric in the sign, for IEEE floats
    that are not NaN. *)
Class SignLaws (num : Type) `{Number num} : Prop := {
  nmul_opp_opp : ∀ a b : num, nmul (nopp a) (nopp b) = nmul a b;
  nmul_opp_r : ∀ a b : num, nmul a (nopp b) = nopp (nmul a b);
  ndiv_opp_l : ∀ a b : num, ndiv (nopp a) b = nopp (ndiv a b);
}.

(** The law of [1.0] in exact arithmetic. *)
Class OneLaws (num : Type) `{Number num} `{One num} : Prop := {
  nmul_1_l : ∀ a : num, nmul none a = a;
}.

(** The slip functions [set_slip_by_ID] chooses from. *)
Inductive slip_function : Type :=
  | Fn_active_body_slip
  | Fn_default_zero_blobs.

(** [seq[i] = a] for a non-negative index. *)
Definition setitem {A} (l : list A) (i : nat) (a : A) : result (list A) :=
  if decide (i < length l) then Ok (<[i := a]> l) else Raise IndexError.

Section MoreMultiBodies.
Context {num : Type} `{Number num} `{One num}.

(** [-r] *)
Definition vopp (r : vec num) : vec num :=
  let '(x, y, z) := r in (nopp x, nopp y, nopp z).

(** [np.dot(u, v)] of two rows. *)
Definition vdot (u v : vec num) : num :=
  let '(a, b, c) := u in let '(x, y, z) := v in
  nadd (nadd (nmul a x) (nmul b y)) (nmul c z).

(** The position of one blob comes in as [r_vectors]; [r_vectors[2]] is its
    height.  The keyword arguments are read with [kwargs.get], and the
    arithmetic raises [TypeError] on a missing one.  [h - blob_radius] is
    written three times in the source and evaluated three times to the same
    value. *)
Definition blob_external_force (r_vectors : vec num)
    (kwargs : gmap string num) : result (vec num) :=
  let f := vzero in
  let blob_mass := kwargs !! "blob_mass" in
  let blob_radius := kwargs !! "blob_radius" in
  let g := kwargs !! "g" in
  let repulsion_strength_wall := kwargs !! "repulsion_strength_wall" in
  let debey_length_wall := kwargs !! "debey_length_wall" in
  match g, blob_mass with
  | Some g, Some blob_mass =>
      let f := vadd f (vscale (nmul (nopp g) blob_mass) (nzero, nzero, none)) in
      let '(_, _, h) := r_vectors in
      match repulsion_strength_wall, blob_radius, debey_length_wall with
      | Some repulsion_strength_wall, Some blob_radius, Some debey_length_wall =>
          let d := nsub h blob_radius in
          Ok (vadd f
                (nzero, nzero,
                 ndiv (nmul (nmul repulsion_strength_wall
                                  (nadd (ndiv d debey_length_wall) none))
                            (nexp (ndiv (nmul (nopp none) d)
                                        debey_length_wall)))
                      (nmul d d)))
      | _, _, _ => Raise TypeError
      end
  | _, _ => Raise TypeError
  end.

(** [np.reshape(r_vectors, (Nblobs, 3))] leaves an array of shape
    [(Nblobs, 3)] as it is. *)
Definition calc_one_blob_forces (r_vectors : list (vec num))
    (kwargs : gmap string num) : result (list (vec num)) :=
  let Nblobs := size r_vectors / 3 in
  let force_blobs := replicate Nblobs vzero in
  for_each (range Nblobs) (fun blob force_blobs =>
    fb ← getitem force_blobs blob;
    r ← getitem r_vectors blob;
    f ← blob_external_force r kwargs;
    Ok (<[blob := vadd fb f]> force_blobs)) force_blobs.

(** The attributes of a body the functions below use.  The class of the
    bodies and the class of [body.orientation] are not in this file;
    [orientation_rotation_matrix] is the 3x3 array
    [body.orientation.rotation_matrix()] returns, by rows. *)
Record Body : Type := {
  ID : string;
  Nblobs : nat;
  orientation_rotation_matrix : vec num * vec num * vec num;
  function_slip : option slip_function;
}.

Definition default_zero_blobs (body : Body) : list (vec num) :=
  replicate (Nblobs body) vzero.

Definition set_slip_by_ID (body : Body) : Body :=
  if decide (ID body = "active_body") then
    {| ID := ID body; Nblobs := Nblobs body;
       orientation_rotation_matrix := orientation_rotation_matrix body;
       function_slip := Some Fn_active_body_slip |}
  else
    {| ID := ID body; Nblobs := Nblobs body;
       orientation_rotation_matrix := orientation_rotation_matrix body;
       function_slip := Some Fn_default_zero_blobs |}.

(** [np.empty] returns an array that is not initialised: its rows are what
    the memory holds, here [memory]. *)
Definition active_body_slip (memory : nat → vec num) (body : Body)
  : result (list (vec num)) :=
  let speed := none in
  let rotation_matrix := orientation_rotation_matrix body in
  let x := vzero in
  let x := let '(_, y, z) := x in (none, y, z) in
  let axis :=
    let '(row0, row1, row2) := rotation_matrix in
    (vdot row0 x, vdot row1 x, vdot row2 x) in
  let slip := memory <$> seq 0 (Nblobs body) in
  for_each (range (Nblobs body)) (fun i slip =>
    setitem slip i (vscale speed axis)) slip.

(** The call [f(body)] of a slip function [f], as a user of
    [set_slip_by_ID] makes it with [body.function_slip]. *)
Definition call_slip (f : slip_function) (memory : nat → vec num)
    (body : Body) : result (list (vec num)) :=
  match f with
  | Fn_active_body_slip => active_body_slip memory body
  | Fn_default_zero_blobs => Ok (default_zero_blobs body)
  end.

(** *** Notions for these functions *)

(** The force between two blobs when [blob_blob_force] returns one. *)
Definition force_of (r : vec num) (kwargs : gmap string num) : vec num :=
  match blob_blob_force r kwargs with
  | Ok force => force
  | Raise _ => vzero
  end.

(** What the blob at [ri] has received from the first [k] blobs: their
    forces on it, subtracted from zero in their order. *)
Definition received (r_vectors : list (vec num)) (kwargs : gmap string num)
    (k : nat) (ri : vec num) : vec num :=
  foldl (fun acc rp => vsub acc (force_of (vsub ri rp) kwargs))
    vzero (take k r_vectors).

(** The forces of the blobs at [later] on the blob at [ri], added to [acc]
    in their order. *)
Definition added (kwargs : gmap string num) (ri : vec num) (acc : vec num)
    (later : list (vec num)) : vec num :=
  foldl (fun acc rj => vadd acc (force_of (vsub rj ri) kwargs)) acc later.

(** Row [i] of the blob-blob forces, for the blob at [ri]: the forces of the
    blobs before it are subtracted in their order, then the forces of the
    blobs after it are added in theirs. *)
Definition blob_row (r_vectors : list (vec num)) (kwargs : gmap string num)
    (i : nat) (ri : vec num) : vec num :=
  added kwargs ri (received r_vectors kwargs i ri) (drop (S i) r_vectors).

(** Row [i] while the two loops run, when the outer loop is at blob [a] and
    the inner loop has come to blob [b]: the rows before [a] are finished,
    row [a] has the forces of the blobs from [a + 1] to [b - 1], and the
    rows after [a] have been charged for the blobs before [a], those before
    [b] for blob [a] as well. *)
Definition loop_row (r_vectors : list (vec num)) (kwargs : gmap string num)
    (a b i : nat) (ri : vec num) : vec num :=
  if decide (i < a) then blob_row r_vectors kwargs i ri
  else if decide (i = a) then
    added kwargs ri (received r_vectors kwargs a ri)
      (take (b - S a) (drop (S a) r_vectors))
  else if decide (i < b) then received r_vectors kwargs (S a) ri
  else received r_vectors kwargs a ri.

(** The force on one blob when [blob_external_force] returns one. *)
Definition external_force_of (r : vec num) (kwargs : gmap string num)
  : vec num :=
  match blob_external_force r kwargs with
  | Ok force => force
  | Raise _ => vzero
  end.

(** The first column of a 3x3 array given by rows. *)
Definition first_column (M : vec num * vec num * vec num) : vec num :=
  let '(row0, row1, row2) := M in (row0.1.1, row1.1.1, row2.1.1).

(** The height of a blob. *)
Definition height (r : vec num) : num := r.2.

(** The keyword arguments [blob_blob_force] and [blob_external_force]
    read. *)
Definition blob_blob_keys : list string :=
  ["repulsion_strength"; "debey_length"].

Definition one_blob_keys : list string :=
  ["blob_mass"; "blob_radius"; "g"; "repulsion_strength_wall";
   "debey_length_wall"].

Definition has_keys (keys : list string) (kwargs : gmap string num) : Prop :=
  Forall (fun key => is_Some (kwargs !! key)) keys.

(** [debey_length] is given and is zero, and: both keyword arguments of
    [blob_blob_force] are given and [debey_length] is not zero. *)
Definition debey_length_zero (kwargs : gmap string num) : Prop :=
  ∃ b, kwargs !! "debey_length" = Some b ∧ nis_zero b = true.

Definition pair_force_given (kwargs : gmap string num) : Prop :=
  is_Some (kwargs !! "repulsion_strength") ∧
  ∃ b, kwargs !! "debey_length" = Some b ∧ nis_zero b = false.

End MoreMultiBodies.

Arguments Body num : clear implicits.

(** Keyword arguments for [blob_external_force], and a body with two
    blobs. *)
Definition wall_kwargs : gmap string R :=
  {["blob_mass" := 1%R; "blob_radius" := 1%R; "g" := 10%R;
    "repulsion_strength_wall" := 3%R; "debey_length_wall" := 2%R]}.

Definition rod (ID : string) : Body R :=
  {| ID := ID; Nblobs := 2;
     orientation_rotation_matrix :=
       ((0, -1, 0), (1, 0, 0), (0, 0, 1))%R;
     function_slip := None |}.

(** ** IEEE doubles *)

(** The doubles of Python and numpy: [spec_float] with 53 bits of precision
    and exponents below 1024, rounding to nearest even.  numpy's [exp] is a
    parameter, [np_exp]. *)
Definition binary64 (np_exp : spec_float → spec_float) : Number spec_float := {|
  nzero := S754_zero false;
  nadd := SFadd 53 1024;
  nsub := SFsub 53 1024;
  nmul := SFmul 53 1024;
  ndiv := SFdiv 53 1024;
  nopp := SFopp;
  nabs := SFabs;
  nexp := np_exp;
  nsqrt := SFsqrt 53 1024;
  nltb := SFltb;
  nis_zero := fun x => SFeqb x (S754_zero false);
|}.

(** The double of an integer. *)
Definition double (m : Z) : spec_float := binary_normalize 53 1024 m 0 false.

(** Two blobs at the origin, and keyword arguments in doubles. *)
Definition coincident_blobs : list (vec spec_float) :=
  [(S754_zero false, S754_zero false, S754_zero false);
   (S754_zero false, S754_zero false, S754_zero false)].

Definition yukawa64 : gmap string spec_float :=
  {["repulsion_strength" := double 1; "debey_length" := double 2]}.

Definition nan_row : vec spec_float := (S754_nan, S754_nan, S754_nan).

(** ** The constructor *)

Section Constructor.
Context {num : Type} `{Number num}.

Lemma getitem_lt {A} (l : list A) (i : nat) :
  i < length l → ∃ a, l !! i = Some a ∧ getitem l i = Ok a.
Proof.
  intros Hi. destruct (lookup_lt_is_Some_2 l i Hi) as [a Ha].
  exists a. unfold getitem. by rewrite Ha.
Qed.

Lemma getitem_ge {A} (l : list A) (i : nat) :
  length l ≤ i → getitem l i = Raise IndexError.
Proof. intros Hi. unfold getitem. by rewrite lookup_ge_None_2. Qed.

Lemma getitem_Some {A} (l : list A) (i : nat) (a : A) :
  l !! i = Some a → getitem l i = Ok a.
Proof. intros Ha. unfold getitem. by rewrite Ha. Qed.

Lemma check_rows (M : list (list num)) (d a n : nat) :
  a + n ≤ length M →
  for_each (seq a n) (fun k (_ : unit) =>
      row ← getitem M k;
      if decide (length row ≠ d) then Raise SystemExit else Ok ()) ()
  = if decide (Forall (fun row => length row = d) (take n (drop a M)))
    then Ok () else Raise SystemExit.
Proof.
  revert a. induction n as [|n IH]; intros a Ha.
  - done.
  - destruct (getitem_lt M a) as (row & Hrow & Hget); [lia|].
    cbn [seq for_each]. rewrite Hget.
    rewrite (drop_S _ _ _ Hrow). cbn [take].
    change (Ok row ≫= _) with
      (if decide (length row ≠ d) then Raise (A:=unit) SystemExit else Ok ()).
    destruct (decide (length row ≠ d)) as [Hne|Heq].
    + simpl. rewrite decide_False; [done|].
      intros [? _]%Forall_cons_1. done.
    + simpl. rewrite IH by lia. apply dec_stable in Heq.
      destruct (decide (Forall _ (take n _))) as [Hall|Hall].
      * by rewrite decide_True by (by constructor).
      * rewrite decide_False; [done|]. by intros [_ ?]%Forall_cons_1.
Qed.

Lemma init_check (M : list (list num)) :
  for_each (range (length M)) (fun k (_ : unit) =>
      row ← getitem M k;
      if decide (length row ≠ length M) then Raise SystemExit else Ok ()) ()
  = if decide (square M) then Ok () else Raise SystemExit.
Proof.
  unfold range. rewrite check_rows by lia.
  by rewrite drop_0, firstn_all.
Qed.

Lemma init_cases (g : list num → num) (M : list (list num)) (s : string) :
  __init__ g M s =
    if decide (square M) then
      if decide (recognized s) then
        Ok {| surface_function := g; mobility := M; dim := length M;
              current_time := nzero; scheme := s |}
      else Raise (NotImplementedError "Only RFD and Euler schemes are implemented")
    else Raise SystemExit.
Proof.
  unfold __init__, recognized. rewrite init_check.
  destruct (decide (square M)); [|done]. simpl.
  destruct (decide (s ∈ ["RFD"; "EULER"])).
  - rewrite decide_False; [done|]. by intros Hn.
  - by rewrite decide_True.
Qed.

Lemma init_constructed (g : list num → num) (M : list (list num)) (s : string)
    (self : ConstrainedIntegrator num) :
  __init__ g M s = Ok self → constructed self.
Proof.
  rewrite init_cases.
  destruct (decide (square M)) as [Hsq|Hsq]; [|done].
  destruct (decide (recognized s)) as [Hs|Hs]; [|done].
  intros [= <-]. by repeat split.
Qed.

(** C3.  Construction fails when the mobility is not square (the constructor
    calls [sys.exit()]) and when the scheme is neither "RFD" nor "EULER" (it
    raises [NotImplementedError]); these are the two failures the
    specification calls ConfigurationError.  For a square mobility and a
    recognized scheme it returns the object, with [dim] the number of rows
    and [current_time] zero. *)
Theorem init_fails_or_constructs (g : list num → num) (M : list (list num))
    (s : string) :
  (¬ square M → __init__ g M s = Raise SystemExit) ∧
  (square M → ¬ recognized s →
     __init__ g M s =
       Raise (NotImplementedError "Only RFD and Euler schemes are implemented")) ∧
  (square M → recognized s →
     __init__ g M s =
       Ok {| surface_function := g; mobility := M; dim := length M;
             current_time := nzero; scheme := s |}).
Proof.
  rewrite init_cases. split; [|split].
  - intros Hsq. by rewrite decide_False.
  - intros Hsq Hs. rewrite decide_True by done. by rewrite decide_False.
  - intros Hsq Hs. rewrite decide_True by done. by rewrite decide_True.
Qed.

End Constructor.

Lemma circle_integrator_init (s : string) :
  recognized s →
  __init__ circle [[1; 0]; [0; 1]]%R s = Ok (circle_integrator s).
Proof.
  intros Hs. rewrite init_cases.
  rewrite decide_True by (by repeat constructor).
  by rewrite decide_True.
Qed.

Lemma recognized_iff (s : string) : recognized s ↔ s = "RFD" ∨ s = "EULER".
Proof.
  unfold recognized. rewrite !elem_of_cons, elem_of_nil. tauto.
Qed.

Lemma recognized_RFD : recognized "RFD".
Proof. apply recognized_iff. by left. Qed.

Lemma recognized_EULER : recognized "EULER".
Proof. apply recognized_iff. by right. Qed.

Lemma unrecognized_FOO : ¬ recognized "FOO".
Proof. rewrite recognized_iff. by intros [?|?]. Qed.

Lemma circle_integrator_constructed (s : string) :
  recognized s → constructed (circle_integrator s).
Proof.
  intros Hs. by apply (init_constructed circle [[1; 0]; [0; 1]]%R s),
    circle_integrator_init.
Qed.

(** A 2x3 mobility and the scheme "FOO" are refused; the 2x2 identity with
    "RFD" is accepted. *)
Lemma init_fails_or_constructs_witness :
  (¬ square [[1; 0; 0]; [0; 1; 0]]%R ∧
   __init__ circle [[1; 0; 0]; [0; 1; 0]]%R "EULER" = Raise SystemExit) ∧
  (square [[1; 0]; [0; 1]]%R ∧ ¬ recognized "FOO" ∧
   __init__ circle [[1; 0]; [0; 1]]%R "FOO" =
     Raise (NotImplementedError "Only RFD and Euler schemes are implemented")) ∧
  (recognized "RFD" ∧
   __init__ circle [[1; 0]; [0; 1]]%R "RFD" = Ok (circle_integrator "RFD")).
Proof.
  assert (Hns : ¬ square [[1; 0; 0]; [0; 1; 0]]%R).
  { intros [Hlen _]%Forall_cons_1. simpl in Hlen. lia. }
  assert (Hsq : square [[1; 0]; [0; 1]]%R) by (by repeat constructor).
  split; [|split].
  - split; [exact Hns|].
    exact (proj1 (init_fails_or_constructs circle _ "EULER") Hns).
  - split; [exact Hsq|]. split; [exact unrecognized_FOO|].
    exact (proj1 (proj2 (init_fails_or_constructs circle _ "FOO"))
             Hsq unrecognized_FOO).
  - split; [exact recognized_RFD|].
    exact (proj2 (proj2 (init_fails_or_constructs circle _ "RFD"))
             Hsq recognized_RFD).
Defined.

(** ** TimeStep *)

Section TimeStep.
Context {num : Type} `{Number num}.
Implicit Types (self : ConstrainedIntegrator num) (dt tol : num).

Lemma TimeStep_recognized dt self :
  recognized (scheme self) → TimeStep dt self = (Ok (), self).
Proof.
  rewrite recognized_iff. unfold TimeStep, RFDTimeStep, EulerTimeStep.
  intros [Hs|Hs]; rewrite Hs; by repeat case_decide.
Qed.

Lemma TimeStep_unrecognized dt self :
  ¬ recognized (scheme self) → TimeStep dt self = (Raise SystemExit, self).
Proof.
  rewrite recognized_iff. unfold TimeStep. intros Hs.
  repeat case_decide; try done; exfalso; apply Hs; auto.
Qed.

Lemma TimeStep_object dt self : (TimeStep dt self).2 = self.
Proof.
  destruct (decide (recognized (scheme self))).
  - by rewrite TimeStep_recognized.
  - by rewrite TimeStep_unrecognized.
Qed.

Lemma steps_recognized n dt self :
  recognized (scheme self) → steps n dt self = (Ok (), self).
Proof.
  intros Hs. induction n as [|n IH]; [done|].
  cbn [steps]. by rewrite TimeStep_recognized.
Qed.

(** C4.  A call of [TimeStep] that raises leaves every attribute of the
    object, [current_time] among them, as it was before the call. *)
Theorem TimeStep_failure_keeps_state dt self (e : exception) self' :
  TimeStep dt self = (Raise e, self') →
  self' = self ∧ current_time self' = current_time self.
Proof.
  intros Hstep. pose proof (TimeStep_object dt self) as Hobj.
  rewrite Hstep in Hobj. simpl in Hobj. by subst.
Qed.

(** C8, as amended.  [TimeStep] makes no check of [dt]: for every [dt], a
    non-positive one included, the call on an integrator with a recognized
    scheme is the call of the stepping method of that scheme, and it returns
    without raising. *)
Theorem TimeStep_dispatches_for_any_dt dt self :
  recognized (scheme self) →
  (scheme self = "RFD" → TimeStep dt self = RFDTimeStep dt self) ∧
  (scheme self = "EULER" → TimeStep dt self = EulerTimeStep dt self) ∧
  (TimeStep dt self).1 = Ok ().
Proof.
  intros Hs. split; [|split].
  - intros Heq. unfold TimeStep. by rewrite decide_True.
  - intros Heq. unfold TimeStep. rewrite Heq. by rewrite decide_False.
  - by rewrite TimeStep_recognized.
Qed.

End TimeStep.

(** C1, on the code.  A step of size 1/2 with either scheme returns [None]
    and assigns no attribute: the stepping methods are [pass], nothing moves
    a configuration or projects one, and the class keeps none.  No new
    configuration comes out of the call, on the surface or off it. *)
Theorem TimeStep_produces_no_configuration :
  (__init__ circle [[1; 0]; [0; 1]]%R "EULER" = Ok (circle_integrator "EULER") ∧
   EulerTimeStep (1 / 2)%R (circle_integrator "EULER")
     = (Ok (), circle_integrator "EULER") ∧
   TimeStep (1 / 2)%R (circle_integrator "EULER")
     = (Ok (), circle_integrator "EULER")) ∧
  (__init__ circle [[1; 0]; [0; 1]]%R "RFD" = Ok (circle_integrator "RFD") ∧
   RFDTimeStep (1 / 2)%R (circle_integrator "RFD")
     = (Ok (), circle_integrator "RFD") ∧
   TimeStep (1 / 2)%R (circle_integrator "RFD")
     = (Ok (), circle_integrator "RFD")).
Proof.
  split.
  - split; [apply circle_integrator_init, recognized_EULER|].
    split; [done|]. apply TimeStep_recognized, recognized_EULER.
  - split; [apply circle_integrator_init, recognized_RFD|].
    split; [done|]. apply TimeStep_recognized, recognized_RFD.
Qed.

(** An object whose [scheme] attribute was overwritten after construction:
    the only way [TimeStep] raises. *)
Lemma TimeStep_failure_keeps_state_witness :
  TimeStep 1%R (circle_integrator "FOO")
    = (Raise SystemExit, circle_integrator "FOO") ∧
  circle_integrator "FOO" = circle_integrator "FOO" ∧
  current_time (circle_integrator "FOO") = current_time (circle_integrator "FOO").
Proof.
  assert (Hstep : TimeStep 1%R (circle_integrator "FOO")
            = (Raise SystemExit, circle_integrator "FOO")).
  { apply TimeStep_unrecognized. exact unrecognized_FOO. }
  split; [exact Hstep|].
  exact (TimeStep_failure_keeps_state 1%R _ SystemExit _ Hstep).
Defined.

(** C8, the counterexample: a step of size [-1] on a constructed integrator
    returns without raising. *)
Lemma TimeStep_accepts_negative_dt :
  (-1 <= 0)%R ∧
  __init__ circle [[1; 0]; [0; 1]]%R "EULER" = Ok (circle_integrator "EULER") ∧
  TimeStep (-1)%R (circle_integrator "EULER")
    = (Ok (), circle_integrator "EULER").
Proof.
  split; [lra|]. split.
  - apply circle_integrator_init, recognized_EULER.
  - apply TimeStep_recognized, recognized_EULER.
Qed.

Lemma TimeStep_dispatches_for_any_dt_witness :
  recognized (scheme (circle_integrator "RFD")) ∧
  (scheme (circle_integrator "RFD") = "RFD" →
   TimeStep (-1)%R (circle_integrator "RFD")
     = RFDTimeStep (-1)%R (circle_integrator "RFD")) ∧
  (scheme (circle_integrator "RFD") = "EULER" →
   TimeStep (-1)%R (circle_integrator "RFD")
     = EulerTimeStep (-1)%R (circle_integrator "RFD")) ∧
  (TimeStep (-1)%R (circle_integrator "RFD")).1 = Ok ().
Proof.
  split; [exact recognized_RFD|].
  exact (TimeStep_dispatches_for_any_dt (-1)%R (circle_integrator "RFD")
           recognized_RFD).
Defined.

(** C2, on the code.  Three steps of size 1/2 from the freshly constructed
    integrator all return, and [current_time] is still 0, not 3/2: nothing
    in [TimeStep], [EulerTimeStep] or [RFDTimeStep] assigns it. *)
Theorem current_time_stays_zero :
  __init__ circle [[1; 0]; [0; 1]]%R "EULER" = Ok (circle_integrator "EULER") ∧
  (∃ self', steps 3 (1 / 2)%R (circle_integrator "EULER") = (Ok (), self') ∧
            current_time self' = 0%R) ∧
  (0 ≠ 3 * (1 / 2))%R.
Proof.
  split; [apply circle_integrator_init, recognized_EULER|]. split.
  - exists (circle_integrator "EULER").
    by rewrite steps_recognized by exact recognized_EULER.
  - lra.
Qed.

(** ** ApplyMobility *)

Section ApplyMobility.
Context {num : Type} `{Number num}.
Implicit Types (self : ConstrainedIntegrator num) (force velocity : list num).

(** The statement in the inner loop, [velocity[j] += mobility[j][k]*force[k]]. *)
Local Abbreviation add_term M force j := (fun (k : nat) (velocity : list _) =>
  v ← getitem velocity j%nat;
  row ← getitem M j%nat;
  m ← getitem row k;
  f ← getitem force k;
  Ok (<[j%nat := nadd v (nmul m f)]> velocity)).

Lemma for_each_cons {A S} (a : A) (l : list A) (body : A → S → result S)
    (s : S) :
  for_each (a :: l) body s = s' ← body a s; for_each l body s'.
Proof. done. Qed.

Lemma for_each_app {A S} (l1 l2 : list A) (body : A → S → result S) (s : S) :
  for_each (l1 ++ l2) body s = s' ← for_each l1 body s; for_each l2 body s'.
Proof.
  revert s. induction l1 as [|a l1 IH]; intros s; [done|].
  simpl. destruct (body a s) as [s'|e]; simpl; [apply IH|done].
Qed.

(** The loop over [k] for one row [j], here from [k = a] for [n] rounds. *)
Lemma row_loop (M : list (list num)) force velocity (j a n : nat)
    (v : num) (row : list num) :
  velocity !! j = Some v → M !! j = Some row →
  a + n ≤ length row → a + n ≤ length force →
  for_each (seq a n) (add_term M force j) velocity
  = Ok (<[j := foldl nadd v (zip_with nmul (take n (drop a row))
                                          (take n (drop a force)))]> velocity).
Proof.
  revert a v velocity. induction n as [|n IH]; intros a v velocity Hv Hrow Hr Hf.
  - simpl. by rewrite list_insert_id.
  - destruct (getitem_lt row a) as (m & Hm & Hgm); [lia|].
    destruct (getitem_lt force a) as (f & Hf' & Hgf); [lia|].
    cbn [seq for_each].
    rewrite (getitem_Some _ _ _ Hv); cbn [mbind result_bind].
    rewrite (getitem_Some _ _ _ Hrow) at 1; cbn [mbind result_bind].
    rewrite Hgm; cbn [mbind result_bind].
    rewrite Hgf; cbn [mbind result_bind].
    rewrite (IH (S a) (nadd v (nmul m f))); [|by apply list_lookup_insert_eq,
      lookup_lt_is_Some_1|done|lia|lia].
    rewrite list_insert_insert_eq.
    by rewrite (drop_S _ _ _ Hm), (drop_S _ _ _ Hf').
Qed.

(** The same loop when [force] ends before the row does. *)
Lemma row_loop_short (M : list (list num)) force velocity (j n : nat)
    (v : num) (row : list num) :
  velocity !! j = Some v → M !! j = Some row →
  n ≤ length row → length force < n →
  for_each (seq 0 n) (add_term M force j) velocity
  = Raise IndexError.
Proof.
  intros Hv Hrow Hr Hf.
  replace n with (length force + S (n - S (length force))) by lia.
  rewrite seq_app, for_each_app.
  rewrite (row_loop M force velocity j 0 (length force) v row) by (done || lia).
  cbn [seq for_each mbind result_bind].
  rewrite (getitem_Some _ j _
             (list_lookup_insert_eq _ _ _ (lookup_lt_Some _ _ _ Hv))).
  cbn [mbind result_bind].
  rewrite (getitem_Some _ _ _ Hrow) at 1; cbn [mbind result_bind].
  rewrite Nat.add_0_l.
  destruct (getitem_lt row (length force)) as (m & _ & ->); [lia|].
  cbn [mbind result_bind].
  by rewrite (getitem_ge force (length force)).
Qed.

(** The loop over [j], here from row [a] for [n] rounds: the rows before [a]
    are done, the others are still zero. *)
Lemma rows_loop (M : list (list num)) force (d a n : nat) (done_ : list num) :
  length M = d → Forall (fun row => length row = d) M → d ≤ length force →
  length done_ = a → a + n ≤ d →
  for_each (seq a n) (fun j velocity =>
      for_each (seq 0 d) (add_term M force j) velocity)
    (done_ ++ replicate (d - a) nzero)
  = Ok (done_ ++ ((fun row => dot row (take d force)) <$> take n (drop a M))
          ++ replicate (d - a - n) nzero).
Proof.
  intros HM Hrows Hforce. revert a done_.
  induction n as [|n IH]; intros a done_ Hdone Han.
  - simpl. by rewrite Nat.sub_0_r.
  - destruct (lookup_lt_is_Some_2 M a) as [row Hrow]; [lia|].
    assert (length row = d) as Hlen
      by (by eapply (proj1 (Forall_lookup _ _) Hrows)).
    cbn [seq for_each].
    rewrite (row_loop M force _ a 0 d nzero row); [|..|lia|lia]; [| |done].
    2:{ rewrite lookup_app_r by lia. apply lookup_replicate_2. lia. }
    cbn [mbind result_bind].
    rewrite !drop_0, (take_ge row) by lia.
    replace (d - a) with (S (d - S a)) at 1 by lia.
    rewrite replicate_S, insert_app_r_alt by lia.
    replace (a - length done_) with 0 by lia. cbn [insert list_insert].
    rewrite cons_middle, app_assoc.
    rewrite (IH (S a)) by (rewrite ?length_app; simpl; lia).
    rewrite (drop_S _ _ _ Hrow). cbn [take fmap list_fmap].
    rewrite <- app_assoc. cbn [app]. unfold dot at 2.
    by replace (d - S a - n) with (d - a - S n) by lia.
Qed.

Lemma dot_take (row force : list num) :
  dot row (take (length row) force) = dot row force.
Proof. unfold dot. by rewrite zip_with_take_r. Qed.

Lemma matvec_take (M : list (list num)) force (d : nat) :
  Forall (fun row => length row = d) M →
  (fun row => dot row (take d force)) <$> M = matvec M force.
Proof.
  unfold matvec. induction 1 as [|row M Hrow _ IH]; [done|].
  rewrite !fmap_cons. f_equal; [|exact IH].
  by rewrite <- Hrow, dot_take.
Qed.

(** With [zeros] bound to numpy's: on a constructed integrator and a force
    with at least [dim] entries the two loops compute the product, from the
    first [dim] entries. *)
Lemma ApplyMobility_long force self :
  constructed self → dim self ≤ length force →
  ApplyMobility_in (Some numpy_zeros) force self
  = (Ok (matvec (mobility self) force), self).
Proof.
  intros (Hdim & Hsq & _) Hlen. unfold ApplyMobility_in, numpy_zeros, range.
  unfold square in Hsq. rewrite <- Hdim in Hsq.
  pose proof (rows_loop (mobility self) force (dim self) 0 (dim self) []
                (eq_sym Hdim) Hsq Hlen eq_refl) as Hloop.
  rewrite Nat.sub_0_r in Hloop. simpl in Hloop.
  rewrite Hloop by lia.
  rewrite drop_0, (take_ge (mobility self)) by lia.
  rewrite Nat.sub_diag. cbn [replicate].
  by rewrite app_nil_r, matvec_take.
Qed.

Lemma ApplyMobility_short force self :
  constructed self → length force < dim self →
  ApplyMobility_in (Some numpy_zeros) force self = (Raise IndexError, self).
Proof.
  intros (Hdim & Hsq & _) Hlen. unfold ApplyMobility_in, numpy_zeros, range.
  destruct (lookup_lt_is_Some_2 (mobility self) 0) as [row Hrow]; [lia|].
  assert (length row = dim self) as Hrlen.
  { rewrite Hdim. by eapply (proj1 (Forall_lookup _ _) Hsq). }
  assert (seq 0 (dim self) = 0 :: seq 1 (dim self - 1)) as Hseq.
  { destruct (dim self); [lia|]. simpl. by rewrite Nat.sub_0_r. }
  rewrite Hseq at 1. rewrite for_each_cons.
  rewrite (row_loop_short (mobility self) force _ 0 (dim self) nzero row);
    [done| |done|lia|done].
  apply lookup_replicate_2. lia.
Qed.

Lemma matvec_lookup (M : list (list num)) force (j : nat) (row : list num) :
  M !! j = Some row → matvec M force !! j = Some (dot row force).
Proof. intros Hrow. unfold matvec. by rewrite list_lookup_fmap, Hrow. Qed.

(** In the file's own module the name is unbound and every call raises. *)
Lemma ApplyMobility_unbound force self :
  ApplyMobility force self = (Raise (NameError "zeros"), self).
Proof. done. Qed.

Lemma for_each_ext_in {A S} (l : list A) (body body' : A → S → result S)
    (s : S) :
  (∀ a t, a ∈ l → body a t = body' a t) →
  for_each l body s = for_each l body' s.
Proof.
  revert s. induction l as [|a l IH]; intros s Hbody; [done|].
  rewrite !for_each_cons, Hbody by left.
  destruct (body' a s); [|done]. apply IH. intros b t Hb.
  apply Hbody. by right.
Qed.

(** The loops read [force[k]] for [k < dim] only: whatever [zeros] is bound
    to, the entries of [force] from [dim] on are never looked at. *)
Lemma ApplyMobility_in_take (zeros : option (nat → list num)) force self :
  ApplyMobility_in zeros force self
  = ApplyMobility_in zeros (take (dim self) force) self.
Proof.
  unfold ApplyMobility_in. destruct zeros as [zeros|]; [|done]. f_equal.
  apply for_each_ext_in. intros j velocity _.
  apply for_each_ext_in. intros k velocity' Hk.
  apply elem_of_seq in Hk.
  destruct (getitem velocity' j) as [v|]; [|done]. cbn [mbind result_bind].
  destruct (getitem (mobility self) j) as [row|]; [|done].
  cbn [mbind result_bind].
  destruct (getitem row k) as [m|]; [|done]. cbn [mbind result_bind].
  unfold getitem. by rewrite lookup_take_lt by lia.
Qed.


End ApplyMobility.

(** *** Linearity *)

Section Linearity.
Context {num : Type} `{ExactArith num}.
Implicit Types (a b x y m f : num) (F : list num).

Lemma nadd_interchange (p q r s : num) :
  nadd (nadd p q) (nadd r s) = nadd (nadd p r) (nadd q s).
Proof.
  rewrite <- (nadd_assoc p q), (nadd_assoc q r), (nadd_comm q r).
  by rewrite <- (nadd_assoc r q), (nadd_assoc p r).
Qed.

Lemma nmul_swap a m f : nmul m (nmul a f) = nmul a (nmul m f).
Proof. by rewrite !nmul_assoc, (nmul_comm m a). Qed.

Lemma linear_term a b x y m f1 f2 :
  nadd (nadd (nmul a x) (nmul b y)) (nmul m (nadd (nmul a f1) (nmul b f2)))
  = nadd (nmul a (nadd x (nmul m f1))) (nmul b (nadd y (nmul m f2))).
Proof.
  rewrite !nmul_add_distr_l, !(nmul_swap _ m). apply nadd_interchange.
Qed.

Lemma dot_linear_from a b x y (row F1 F2 : list num) :
  length F1 = length F2 →
  foldl nadd (nadd (nmul a x) (nmul b y))
    (zip_with nmul row (add_vec (scale a F1) (scale b F2)))
  = nadd (nmul a (foldl nadd x (zip_with nmul row F1)))
         (nmul b (foldl nadd y (zip_with nmul row F2))).
Proof.
  revert x y F1 F2. induction row as [|m row IH]; intros x y F1 F2 Hlen; [done|].
  destruct F1 as [|f1 F1], F2 as [|f2 F2]; try done.
  injection Hlen as Hlen. cbn [scale add_vec fmap list_fmap zip_with foldl].
  rewrite linear_term. by apply IH.
Qed.

Lemma dot_linear a b (row F1 F2 : list num) :
  length F1 = length F2 →
  dot row (add_vec (scale a F1) (scale b F2))
  = nadd (nmul a (dot row F1)) (nmul b (dot row F2)).
Proof.
  intros Hlen. unfold dot. rewrite <- dot_linear_from by done.
  by rewrite !nmul_0_r, nadd_0_l.
Qed.

Lemma matvec_linear a b (M : list (list num)) (F1 F2 : list num) :
  length F1 = length F2 →
  matvec M (add_vec (scale a F1) (scale b F2))
  = add_vec (scale a (matvec M F1)) (scale b (matvec M F2)).
Proof.
  intros Hlen. unfold matvec. induction M as [|row M IH]; [done|].
  rewrite !fmap_cons. cbn [scale add_vec fmap list_fmap zip_with].
  rewrite dot_linear by done. f_equal. exact IH.
Qed.

(** X14.  With the name [zeros] bound to numpy's and in exact arithmetic,
    [ApplyMobility] is linear: on a constructed integrator and force
    vectors [F1], [F2] of length [dim], the three calls return, and the
    velocity for [a * F1 + b * F2] is [a] times the velocity for [F1] plus
    [b] times the velocity for [F2]. *)
Theorem ApplyMobility_in_linear a b (F1 F2 : list num)
    (self : ConstrainedIntegrator num) :
  constructed self → length F1 = dim self → length F2 = dim self →
  ∃ v1 v2,
    ApplyMobility_in (Some numpy_zeros) F1 self = (Ok v1, self) ∧
    ApplyMobility_in (Some numpy_zeros) F2 self = (Ok v2, self) ∧
    ApplyMobility_in (Some numpy_zeros)
        (add_vec (scale a F1) (scale b F2)) self
      = (Ok (add_vec (scale a v1) (scale b v2)), self).
Proof.
  intros Hself H1 H2.
  exists (matvec (mobility self) F1), (matvec (mobility self) F2).
  rewrite !ApplyMobility_long; try done; try lia.
  - by rewrite matvec_linear by congruence.
  - unfold add_vec, scale. rewrite length_zip_with, !length_fmap. lia.
Qed.

End Linearity.

#[global] Instance R_exact : ExactArith R.
Proof. split; intros; simpl; lra. Qed.

(** C5, on the code.  On the integrator built from the 2x2 identity, the
    call with a force vector of the right length raises [NameError]: the
    first statement of the method calls [zeros], a name the file neither
    imports nor defines.  So does the call with any other force vector; no
    velocity is ever returned. *)
Theorem ApplyMobility_raises_NameError :
  __init__ circle [[1; 0]; [0; 1]]%R "EULER" = Ok (circle_integrator "EULER") ∧
  length [3; 4]%R = dim (circle_integrator "EULER") ∧
  ApplyMobility [3; 4]%R (circle_integrator "EULER")
    = (Raise (NameError "zeros"), circle_integrator "EULER") ∧
  ∀ force : list R,
    ApplyMobility force (circle_integrator "EULER")
    = (Raise (NameError "zeros"), circle_integrator "EULER").
Proof.
  split; [apply circle_integrator_init, recognized_EULER|].
  split; [done|]. split; [apply ApplyMobility_unbound|].
  intros force. apply ApplyMobility_unbound.
Qed.

(** C6, on the code.  None of the three calls in the linearity equation
    returns a velocity: for [F1 = [1, 2]], [F2 = [3, 4]], [a = 2], [b = 5]
    each raises [NameError] at [zeros]. *)
Theorem ApplyMobility_linear_combination_raises :
  length [1; 2]%R = dim (circle_integrator "RFD") ∧
  length [3; 4]%R = dim (circle_integrator "RFD") ∧
  ApplyMobility [1; 2]%R (circle_integrator "RFD")
    = (Raise (NameError "zeros"), circle_integrator "RFD") ∧
  ApplyMobility [3; 4]%R (circle_integrator "RFD")
    = (Raise (NameError "zeros"), circle_integrator "RFD") ∧
  ApplyMobility (add_vec (scale 2%R [1; 2]%R) (scale 5%R [3; 4]%R))
      (circle_integrator "RFD")
    = (Raise (NameError "zeros"), circle_integrator "RFD").
Proof. repeat split; apply ApplyMobility_unbound. Qed.



Lemma ApplyMobility_in_linear_witness :
  constructed (circle_integrator "RFD") ∧
  length [1; 2]%R = dim (circle_integrator "RFD") ∧
  length [3; 4]%R = dim (circle_integrator "RFD") ∧
  ∃ v1 v2,
    ApplyMobility_in (Some numpy_zeros) [1; 2]%R (circle_integrator "RFD")
      = (Ok v1, circle_integrator "RFD") ∧
    ApplyMobility_in (Some numpy_zeros) [3; 4]%R (circle_integrator "RFD")
      = (Ok v2, circle_integrator "RFD") ∧
    ApplyMobility_in (Some numpy_zeros)
        (add_vec (scale 2%R [1; 2]%R) (scale 5%R [3; 4]%R))
        (circle_integrator "RFD")
      = (Ok (add_vec (scale 2%R v1) (scale 5%R v2)), circle_integrator "RFD").
Proof.
  split; [exact (circle_integrator_constructed _ recognized_RFD)|].
  split; [reflexivity|]. split; [reflexivity|].
  exact (ApplyMobility_in_linear 2%R 5%R [1; 2]%R [3; 4]%R
           (circle_integrator "RFD")
           (circle_integrator_constructed _ recognized_RFD) eq_refl eq_refl).
Defined.

(** ** set_blob_blob_forces *)

Lemma set_blob_blob_forces_other (found_pycuda : bool) (implementation : string) :
  implementation ∉ implementations →
  set_blob_blob_forces found_pycuda implementation = Ok None.
Proof.
  unfold implementations, set_blob_blob_forces. intros Hn.
  repeat (destruct (decide (implementation = _)) as [->|_];
          [exfalso; apply Hn; repeat constructor|]).
  done.
Qed.

(** C10.  [set_blob_blob_forces] returns a function exactly for the names
    'None', 'python', 'C++' and, when [forces_pycuda] was imported, 'pycuda';
    for every other name it returns [None] and raises nothing. *)
Theorem set_blob_blob_forces_names (found_pycuda : bool)
    (implementation : string) :
  (implementation ∉ implementations →
     set_blob_blob_forces found_pycuda implementation = Ok None) ∧
  ((∃ f, set_blob_blob_forces found_pycuda implementation = Ok (Some f)) ↔
     implementation ∈ ["None"; "python"; "C++"] ∨
     (implementation = "pycuda" ∧ found_pycuda = true)).
Proof.
  split; [apply set_blob_blob_forces_other|].
  unfold set_blob_blob_forces. split.
  - intros [f Hf].
    repeat (destruct (decide (implementation = _)) as [->|_];
            [try (left; by repeat constructor)|]); [|done].
    right. by destruct found_pycuda.
  - intros [Hin|[-> ->]]; [|eexists; done].
    repeat (apply elem_of_cons in Hin as [->|Hin]; [by eexists|]).
    by apply elem_of_nil in Hin.
Qed.

Lemma set_blob_blob_forces_names_witness :
  ("cuda" ∉ implementations) ∧ set_blob_blob_forces false "cuda" = Ok None.
Proof.
  assert ("cuda" ∉ implementations) as Hn.
  { unfold implementations. intros Hin.
    repeat (apply elem_of_cons in Hin as [?|Hin]; [done|]).
    by apply elem_of_nil in Hin. }
  split; [exact Hn|].
  exact (proj1 (set_blob_blob_forces_names false "cuda") Hn).
Defined.

(** ** calc_blob_blob_forces_python *)

Section ForEach.
Context {A S : Type}.
Implicit Types (l : list A) (body : A → S → result S) (s : S).

(** What every round keeps, the loop keeps. *)
Lemma for_each_keeps (P : S → Prop) l body s s' :
  (∀ a t t', P t → body a t = Ok t' → P t') →
  P s → for_each l body s = Ok s' → P s'.
Proof.
  intros Hbody. revert s. induction l as [|a l IH]; intros s Hs Hrun.
  - injection Hrun as <-. exact Hs.
  - rewrite for_each_cons in Hrun.
    destruct (body a s) as [t|e] eqn:Ha; [|done].
    apply (IH t); [by eapply Hbody|exact Hrun].
Qed.

End ForEach.

Section BlobBlobForces.
Context {num : Type} `{ExactArith num}.
Implicit Types (u v w f : vec num) (forces : list (vec num)).

Lemma vadd_comm u v : vadd u v = vadd v u.
Proof.
  destruct u as [[a b] c], v as [[x y] z]. unfold vadd.
  by rewrite (nadd_comm a), (nadd_comm b), (nadd_comm c).
Qed.

Lemma vadd_assoc u v w : vadd u (vadd v w) = vadd (vadd u v) w.
Proof.
  destruct u as [[a b] c], v as [[x y] z], w as [[p q] r]. unfold vadd.
  by rewrite !nadd_assoc.
Qed.

Lemma vadd_0_l v : vadd vzero v = v.
Proof. destruct v as [[x y] z]. unfold vadd, vzero. by rewrite !nadd_0_l. Qed.

Lemma nadd_sub_cancel (a b : num) : nsub (nadd a b) b = a.
Proof.
  rewrite nsub_def, <- nadd_assoc, nadd_opp_r.
  by rewrite nadd_comm, nadd_0_l.
Qed.

Lemma nadd_sub_assoc (a b c : num) : nadd a (nsub b c) = nsub (nadd a b) c.
Proof. by rewrite !nsub_def, nadd_assoc. Qed.

Lemma vadd_sub_cancel u f : vsub (vadd u f) f = u.
Proof.
  destruct u as [[a b] c], f as [[x y] z]. unfold vadd, vsub.
  by rewrite !nadd_sub_cancel.
Qed.

Lemma vadd_sub_assoc u v f : vadd u (vsub v f) = vsub (vadd u v) f.
Proof.
  destruct u as [[a b] c], v as [[x y] z], f as [[p q] r]. unfold vadd, vsub.
  by rewrite !nadd_sub_assoc.
Qed.

Lemma vsub_add_l u v f : vadd (vsub u f) v = vsub (vadd u v) f.
Proof. by rewrite vadd_comm, vadd_sub_assoc, (vadd_comm v). Qed.

Lemma total_cons w forces : total (w :: forces) = vadd w (total forces).
Proof. done. Qed.

Lemma total_replicate (n : nat) : total (replicate n (vzero (num:=num))) = vzero.
Proof.
  induction n as [|n IH]; [done|].
  by rewrite replicate_S, total_cons, IH, vadd_0_l.
Qed.

(** [forces[i] += f] adds [f] to the sum of the rows. *)
Lemma total_insert_add forces (i : nat) v f :
  forces !! i = Some v →
  total (<[i := vadd v f]> forces) = vadd (total forces) f.
Proof.
  revert i. induction forces as [|w forces IH]; intros [|i] Hv; try done.
  - injection Hv as ->.
    change (<[0 := vadd v f]> (v :: forces)) with (vadd v f :: forces).
    rewrite !total_cons. by rewrite <- !vadd_assoc, (vadd_comm f).
  - change (<[S i := vadd v f]> (w :: forces))
      with (w :: <[i := vadd v f]> forces).
    rewrite !total_cons, (IH i Hv). by rewrite vadd_assoc.
Qed.

(** [forces[j] -= f] takes [f] from the sum of the rows. *)
Lemma total_insert_sub forces (j : nat) v f :
  forces !! j = Some v →
  total (<[j := vsub v f]> forces) = vsub (total forces) f.
Proof.
  revert j. induction forces as [|w forces IH]; intros [|j] Hv; try done.
  - injection Hv as ->.
    change (<[0 := vsub v f]> (v :: forces)) with (vsub v f :: forces).
    rewrite !total_cons. apply vsub_add_l.
  - change (<[S j := vsub v f]> (w :: forces))
      with (w :: <[j := vsub v f]> forces).
    rewrite !total_cons, (IH j Hv). apply vadd_sub_assoc.
Qed.

(** The statements in the inner loop, for the pair [(i, j)]. *)
Local Abbreviation pair_term r_vectors kwargs i :=
  (fun (j : nat) (force_blobs : list (vec _)) =>
     rj ← getitem r_vectors j;
     ri ← getitem r_vectors i%nat;
     let r := vsub rj ri in
     force ← blob_blob_force r kwargs;
     fi ← getitem force_blobs i%nat;
     let force_blobs := <[i%nat := vadd fi force]> force_blobs in
     fj ← getitem force_blobs j;
     Ok (<[j := vsub fj force]> force_blobs)).

Lemma Nblobs_length (r_vectors : list (vec num)) :
  size r_vectors / 3 = length r_vectors.
Proof. unfold size. by apply Nat.div_mul. Qed.

(** A round of the inner loop adds a force to one row and takes it from
    another: the sum of the rows stays. *)
Lemma pair_term_keeps (r_vectors : list (vec num)) (kwargs : gmap string num)
    (i j : nat) forces forces' :
  pair_term r_vectors kwargs i j forces = Ok forces' →
  length forces' = length forces ∧ total forces' = total forces.
Proof.
  cbv beta. intros Hrun.
  destruct (getitem r_vectors j) as [rj|]; [|done].
  cbn [mbind result_bind] in Hrun.
  destruct (getitem r_vectors i) as [ri|]; [|done].
  cbn [mbind result_bind] in Hrun. cbv zeta in Hrun.
  destruct (blob_blob_force (vsub rj ri) kwargs) as [force|]; [|done].
  cbn [mbind result_bind] in Hrun. unfold getitem in Hrun.
  destruct (forces !! i) as [fi|] eqn:Hfi; [|done].
  cbn [mbind result_bind] in Hrun.
  destruct (<[i:=vadd fi force]> forces !! j) as [fj|] eqn:Hfj; [|done].
  injection Hrun as <-. split.
  - by rewrite !length_insert.
  - rewrite (total_insert_sub _ _ _ _ Hfj), (total_insert_add _ _ _ _ Hfi).
    apply vadd_sub_cancel.
Qed.

(** In exact arithmetic the rows of the array add up to the zero vector:
    the empty array does, and every round of the loops keeps the sum. *)
Lemma blob_blob_forces_cancel (r_vectors : list (vec num))
    (kwargs : gmap string num) forces :
  calc_blob_blob_forces_python r_vectors kwargs = Ok forces →
  length forces = length r_vectors ∧ total forces = vzero.
Proof.
  unfold calc_blob_blob_forces_python. rewrite Nblobs_length.
  set (N := length r_vectors).
  apply (for_each_keeps
           (fun fb => length fb = N ∧ total fb = vzero (num:=num))).
  - intros i fb fb' Hfb.
    apply (for_each_keeps
             (fun fb => length fb = N ∧ total fb = vzero (num:=num)));
      [|exact Hfb].
    intros j t t' [Hlen Htot] Hrun.
    apply pair_term_keeps in Hrun as [Hlen' Htot']. split; congruence.
  - split; [apply length_replicate|apply total_replicate].
Qed.

End BlobBlobForces.

Lemma R_not_zero (x : R) : x ≠ 0%R → nis_zero x = false.
Proof. intros Hx. simpl. by destruct (Req_dec_T x 0). Qed.

Lemma yukawa_given : pair_force_given yukawa.
Proof.
  unfold pair_force_given, yukawa. split.
  - exists 1%R. apply lookup_insert_eq.
  - exists 2%R. split; [|apply R_not_zero; lra].
    rewrite lookup_insert_ne by done. apply lookup_singleton_eq.
Qed.

(** ** Further properties of the integrator *)

Section IntegratorMore.
Context {num : Type} `{Number num}.
Implicit Types (self : ConstrainedIntegrator num) (force : list num).

(** X1.  On the object the constructor returns, any number of calls of
    [TimeStep], with any step size, return without raising and leave every
    attribute as the constructor set it; [current_time] is still zero. *)
Theorem steps_keep_constructed_object (g : list num → num)
    (M : list (list num)) (s : string) self (n : nat) (dt : num) :
  __init__ g M s = Ok self →
  steps n dt self = (Ok (), self) ∧ current_time self = nzero ∧
  mobility self = M ∧ scheme self = s.
Proof.
  intros Hinit. pose proof (init_constructed _ _ _ _ Hinit) as (_ & _ & Hs).
  split; [by apply steps_recognized|].
  rewrite init_cases in Hinit. repeat case_decide; try done.
  by injection Hinit as <-.
Qed.

(** X2.  Constructing and then applying: on the object built from a
    mobility [M], [ApplyMobility] as the file has it raises [NameError]
    whatever the force; with the name [zeros] bound to numpy's it returns
    the product of [M] and the force when the force has at least as many
    entries as [M] has rows, and raises [IndexError] otherwise.  The object
    is not changed in any of these cases. *)
Theorem ApplyMobility_after_init (g : list num → num)
    (M : list (list num)) (s : string) self force :
  __init__ g M s = Ok self →
  ApplyMobility force self = (Raise (NameError "zeros"), self) ∧
  ApplyMobility_in (Some numpy_zeros) force self =
    (if decide (length M ≤ length force) then Ok (matvec M force)
     else Raise IndexError, self).
Proof.
  intros Hinit. pose proof (init_constructed _ _ _ _ Hinit) as Hself.
  assert (mobility self = M ∧ dim self = length M) as [HM Hdim].
  { rewrite init_cases in Hinit. repeat case_decide; try done.
    by injection Hinit as <-. }
  split; [done|]. case_decide as Hlen.
  - rewrite ApplyMobility_long, HM; [done|done|lia].
  - rewrite ApplyMobility_short; [done|done|lia].
Qed.

End IntegratorMore.

Lemma steps_keep_constructed_object_witness :
  __init__ circle [[1; 0]; [0; 1]]%R "RFD" = Ok (circle_integrator "RFD") ∧
  steps 5 (1 / 4)%R (circle_integrator "RFD")
    = (Ok (), circle_integrator "RFD") ∧
  current_time (circle_integrator "RFD") = 0%R ∧
  mobility (circle_integrator "RFD") = [[1; 0]; [0; 1]]%R ∧
  scheme (circle_integrator "RFD") = "RFD".
Proof.
  split; [exact (circle_integrator_init _ recognized_RFD)|].
  exact (steps_keep_constructed_object circle _ "RFD" _ 5 (1 / 4)%R
           (circle_integrator_init _ recognized_RFD)).
Defined.

Lemma ApplyMobility_after_init_witness :
  __init__ circle [[1; 0]; [0; 1]]%R "RFD" = Ok (circle_integrator "RFD") ∧
  ApplyMobility [7]%R (circle_integrator "RFD")
    = (Raise (NameError "zeros"), circle_integrator "RFD") ∧
  ApplyMobility_in (Some numpy_zeros) [7]%R (circle_integrator "RFD") =
    (if decide (length [[1; 0]; [0; 1]]%R ≤ length [7]%R)
     then Ok (matvec [[1; 0]; [0; 1]]%R [7]%R)
     else Raise IndexError, circle_integrator "RFD").
Proof.
  split; [exact (circle_integrator_init _ recognized_RFD)|].
  exact (ApplyMobility_after_init circle _ "RFD" _ [7]%R
           (circle_integrator_init _ recognized_RFD)).
Defined.

(** ** blob_blob_force *)

#[global] Instance R_sign : SignLaws R.
Proof. split; intros; simpl; unfold Rdiv; lra. Qed.

Section PairForce.
Context {num : Type} `{Number num}.
Implicit Types (r : vec num) (kwargs : gmap string num).

Lemma has_blob_blob_keys kwargs :
  has_keys blob_blob_keys kwargs ↔
  is_Some (kwargs !! "repulsion_strength") ∧ is_Some (kwargs !! "debey_length").
Proof.
  unfold has_keys, blob_blob_keys. rewrite !Forall_cons, Forall_nil. tauto.
Qed.

(** The three cases of the keyword arguments. *)
Lemma pair_force_cases kwargs :
  ¬ has_keys blob_blob_keys kwargs ∨
  (has_keys blob_blob_keys kwargs ∧ debey_length_zero kwargs) ∨
  pair_force_given kwargs.
Proof.
  rewrite has_blob_blob_keys. unfold debey_length_zero, pair_force_given.
  destruct (kwargs !! "repulsion_strength") as [eps|];
    [|left; by intros [[? ?] _]].
  destruct (kwargs !! "debey_length") as [b|];
    [|left; by intros [_ [? ?]]].
  right. destruct (nis_zero b) eqn:Hb; [left|right]; eauto 10.
Qed.

Lemma pair_force_given_has_keys kwargs :
  pair_force_given kwargs → has_keys blob_blob_keys kwargs.
Proof.
  intros [Heps (b & Hb & _)]. apply has_blob_blob_keys. split; [done|eauto].
Qed.

Lemma pair_force_given_not_zero kwargs :
  pair_force_given kwargs → ¬ debey_length_zero kwargs.
Proof. intros [_ (b & Hb & Hnz)] (b' & Hb' & Hz). congruence. Qed.

Lemma blob_blob_force_given r kwargs :
  pair_force_given kwargs →
  blob_blob_force r kwargs = Ok (force_of r kwargs).
Proof.
  intros [[eps Heps] (b & Hb & Hnz)].
  unfold force_of, blob_blob_force, truediv. by rewrite Heps, Hb, Hnz.
Qed.

Lemma blob_blob_force_missing r kwargs :
  ¬ has_keys blob_blob_keys kwargs →
  blob_blob_force r kwargs = Raise TypeError.
Proof.
  rewrite has_blob_blob_keys. unfold blob_blob_force. intros Hn.
  destruct (kwargs !! "repulsion_strength") as [eps|]; [|done].
  destruct (kwargs !! "debey_length") as [b|]; [|done].
  exfalso. apply Hn. by split.
Qed.

Lemma blob_blob_force_zero r kwargs :
  has_keys blob_blob_keys kwargs → debey_length_zero kwargs →
  blob_blob_force r kwargs = Raise ZeroDivisionError.
Proof.
  intros [[eps Heps] _]%has_blob_blob_keys (b & Hb & Hz).
  unfold blob_blob_force, truediv. by rewrite Heps, Hb, Hz.
Qed.

Context `{!SignLaws num}.

Lemma norm_vopp r : norm (vopp r) = norm r.
Proof.
  destruct r as [[x y] z]. unfold norm, vopp. by rewrite !nmul_opp_opp.
Qed.

Lemma vdiv_vscale_vopp (c n : num) r :
  vdiv (vscale c (vopp r)) n = vopp (vdiv (vscale c r) n).
Proof.
  destruct r as [[x y] z]. unfold vdiv, vscale, vopp.
  by rewrite !nmul_opp_r, !ndiv_opp_l.
Qed.

(** X3.  The force between two blobs is odd in the vector between them:
    for the opposite vector [blob_blob_force] raises when it raises for
    [r], and returns the opposite force when it returns one for [r]. *)
Theorem blob_blob_force_odd r kwargs :
  blob_blob_force (vopp r) kwargs
  = force ← blob_blob_force r kwargs; Ok (vopp force).
Proof.
  unfold blob_blob_force. rewrite norm_vopp.
  destruct (kwargs !! "repulsion_strength") as [eps|]; [|done].
  destruct (kwargs !! "debey_length") as [b|]; [|done].
  destruct (truediv eps b) as [q|]; [|done].
  cbn [mbind result_bind]. by rewrite vdiv_vscale_vopp.
Qed.

End PairForce.

Lemma blob_blob_force_odd_witness :
  blob_blob_force (vopp (3, 0, 4)%R) yukawa
  = force ← blob_blob_force (3, 0, 4)%R yukawa; Ok (vopp force).
Proof. exact (blob_blob_force_odd (3, 0, 4)%R yukawa). Defined.

(** ** calc_blob_blob_forces_python, row by row *)

Section BlobBlobRows.
Context {num : Type} `{Number num}.
Implicit Types (r_vectors forces : list (vec num)) (kwargs : gmap string num).

(** The statements in the inner loop, for the pair [(i, j)], with the local
    variables [r] and the updated [force_blobs] written out. *)
Local Abbreviation pair_update r_vectors kwargs i :=
  (fun (j : nat) (force_blobs : list (vec _)) =>
     rj ← getitem r_vectors j;
     ri ← getitem r_vectors i%nat;
     force ← blob_blob_force (vsub rj ri) kwargs;
     fi ← getitem force_blobs i%nat;
     fj ← getitem (<[i%nat := vadd fi force]> force_blobs) j;
     Ok (<[j := vsub fj force]> (<[i%nat := vadd fi force]> force_blobs))).

Lemma size_div_3 r_vectors : size r_vectors / 3 = length r_vectors.
Proof. unfold size. by apply Nat.div_mul. Qed.

Lemma received_S r_vectors kwargs (k : nat) (rk ri : vec num) :
  r_vectors !! k = Some rk →
  received r_vectors kwargs (S k) ri
  = vsub (received r_vectors kwargs k ri) (force_of (vsub ri rk) kwargs).
Proof.
  intros Hk. unfold received.
  by rewrite (take_S_r _ _ _ Hk), foldl_app.
Qed.

Lemma added_snoc kwargs (ri acc rj : vec num) (later : list (vec num)) :
  added kwargs ri acc (later ++ [rj])
  = vadd (added kwargs ri acc later) (force_of (vsub rj ri) kwargs).
Proof. unfold added. by rewrite foldl_app. Qed.

(** One round of the inner loop takes the rows from stage [(a, j)] to stage
    [(a, j + 1)]. *)
Lemma pair_update_rows r_vectors kwargs (a j : nat) :
  pair_force_given kwargs →
  a < j → j < length r_vectors →
  pair_update r_vectors kwargs a j (imap (loop_row r_vectors kwargs a j) r_vectors)
  = Ok (imap (loop_row r_vectors kwargs a (S j)) r_vectors).
Proof.
  intros Hkeys Haj Hj. cbv beta.
  destruct (lookup_lt_is_Some_2 r_vectors j Hj) as [rj Hrj].
  destruct (lookup_lt_is_Some_2 r_vectors a) as [ra Hra]; [lia|].
  rewrite (getitem_Some _ _ _ Hrj); cbn [mbind result_bind].
  rewrite (getitem_Some _ _ _ Hra); cbn [mbind result_bind]. cbv zeta.
  rewrite (blob_blob_force_given _ _ Hkeys); cbn [mbind result_bind].
  set (F := force_of (vsub rj ra) kwargs).
  set (st := imap (loop_row r_vectors kwargs a j) r_vectors).
  assert (st !! a = Some (loop_row r_vectors kwargs a j a ra)) as Hsa
    by (unfold st; by rewrite list_lookup_imap, Hra).
  assert (st !! j = Some (loop_row r_vectors kwargs a j j rj)) as Hsj
    by (unfold st; by rewrite list_lookup_imap, Hrj).
  rewrite (getitem_Some _ _ _ Hsa); cbn [mbind result_bind].
  rewrite (getitem_Some _ j (loop_row r_vectors kwargs a j j rj));
    [|rewrite list_lookup_insert_ne by lia; exact Hsj].
  cbn [mbind result_bind]. f_equal.
  apply list_eq. intros i. rewrite list_lookup_imap.
  destruct (decide (i = j)) as [->|Hij].
  - rewrite list_lookup_insert_eq
      by (rewrite length_insert; by eapply lookup_lt_Some).
    rewrite Hrj. cbn [fmap option_fmap option_map]. f_equal.
    unfold loop_row. repeat case_decide; try lia.
    by rewrite (received_S _ _ _ _ _ Hra).
  - rewrite list_lookup_insert_ne by done.
    destruct (decide (i = a)) as [->|Hia].
    + rewrite list_lookup_insert_eq by by eapply lookup_lt_Some.
      rewrite Hra. cbn [fmap option_fmap option_map]. f_equal.
      unfold loop_row. repeat case_decide; try lia.
      replace (S j - S a) with (S (j - S a)) by lia.
      rewrite (take_S_r _ _ rj), added_snoc; [done|].
      rewrite lookup_drop. by replace (S a + (j - S a)) with j by lia.
    + rewrite list_lookup_insert_ne by done.
      unfold st. rewrite list_lookup_imap.
      destruct (r_vectors !! i) as [ri|]; [|done].
      cbn [fmap option_fmap option_map]. f_equal.
      unfold loop_row. repeat case_decide; try done; lia.
Qed.

(** The inner loop for blob [a], from blob [b] for [n] rounds. *)
Lemma pair_loop_rows r_vectors kwargs (a b n : nat) :
  pair_force_given kwargs →
  a < b → b + n ≤ length r_vectors →
  for_each (seq b n) (pair_update r_vectors kwargs a)
    (imap (loop_row r_vectors kwargs a b) r_vectors)
  = Ok (imap (loop_row r_vectors kwargs a (b + n)) r_vectors).
Proof.
  intros Hkeys. revert b. induction n as [|n IH]; intros b Hab Hn.
  - by rewrite Nat.add_0_r.
  - cbn [seq]. rewrite for_each_cons.
    rewrite pair_update_rows by (done || lia). cbn [mbind result_bind].
    rewrite IH by lia. by replace (S b + n) with (b + S n) by lia.
Qed.

(** When the inner loop for blob [a] is over, the outer loop is at blob
    [a + 1]. *)
Lemma loop_row_next r_vectors kwargs (a : nat) :
  imap (loop_row r_vectors kwargs a (length r_vectors)) r_vectors
  = imap (loop_row r_vectors kwargs (S a) (S (S a))) r_vectors.
Proof.
  apply imap_ext. intros i ri Hi. apply lookup_lt_Some in Hi.
  unfold loop_row, blob_row. repeat case_decide; try done; try lia.
  - subst i. by rewrite take_ge by (rewrite length_drop; lia).
  - subst i. by rewrite Nat.sub_diag.
Qed.

Lemma rows_loop_rows r_vectors kwargs (a n : nat) :
  pair_force_given kwargs →
  a + n < length r_vectors →
  for_each (seq a n) (fun i force_blobs =>
      for_each (seq (i + 1) (length r_vectors - (i + 1)))
        (pair_update r_vectors kwargs i) force_blobs)
    (imap (loop_row r_vectors kwargs a (S a)) r_vectors)
  = Ok (imap (loop_row r_vectors kwargs (a + n) (S (a + n))) r_vectors).
Proof.
  intros Hkeys. revert a. induction n as [|n IH]; intros a Han.
  - by rewrite Nat.add_0_r.
  - cbn [seq]. rewrite for_each_cons. unfold range2.
    rewrite (Nat.add_1_r a).
    rewrite pair_loop_rows by (done || lia). cbn [mbind result_bind].
    replace (S a + (length r_vectors - S a)) with (length r_vectors) by lia.
    rewrite loop_row_next, IH by lia.
    by replace (S a + n) with (a + S n) by lia.
Qed.

Lemma loop_row_first r_vectors kwargs :
  replicate (length r_vectors) vzero
  = imap (loop_row r_vectors kwargs 0 1) r_vectors.
Proof.
  apply list_eq. intros i. rewrite list_lookup_imap.
  destruct (r_vectors !! i) as [ri|] eqn:Hi.
  - rewrite lookup_replicate_2 by by eapply lookup_lt_Some.
    cbn [fmap option_fmap option_map]. f_equal.
    unfold loop_row, added, received. repeat case_decide; try lia; done.
  - apply lookup_ge_None in Hi. by rewrite lookup_ge_None_2
      by (rewrite length_replicate; lia).
Qed.

Lemma loop_row_last r_vectors kwargs :
  imap (loop_row r_vectors kwargs (length r_vectors - 1)
          (S (length r_vectors - 1))) r_vectors
  = imap (blob_row r_vectors kwargs) r_vectors.
Proof.
  apply imap_ext. intros i ri Hi. apply lookup_lt_Some in Hi.
  unfold loop_row, blob_row. repeat case_decide; try done; try lia.
  subst i. rewrite Nat.sub_diag.
  by rewrite (drop_ge r_vectors) by lia.
Qed.

Lemma blob_blob_forces_given r_vectors kwargs :
  pair_force_given kwargs →
  calc_blob_blob_forces_python r_vectors kwargs
  = Ok (imap (blob_row r_vectors kwargs) r_vectors).
Proof.
  intros Hkeys. unfold calc_blob_blob_forces_python. rewrite size_div_3.
  destruct (decide (length r_vectors = 0)) as [Hnil|Hlen].
  - apply nil_length_inv in Hnil. by subst r_vectors.
  - rewrite (loop_row_first _ kwargs). unfold range, range2.
    pose proof (rows_loop_rows r_vectors kwargs 0 (length r_vectors - 1)
                  Hkeys) as Hloop.
    rewrite Nat.add_0_l in Hloop. rewrite Hloop by lia.
    by rewrite loop_row_last.
Qed.

Lemma blob_blob_forces_few r_vectors kwargs :
  length r_vectors ≤ 1 →
  calc_blob_blob_forces_python r_vectors kwargs
  = Ok (replicate (length r_vectors) vzero).
Proof.
  intros Hlen. unfold calc_blob_blob_forces_python. rewrite size_div_3.
  by replace (length r_vectors - 1) with 0 by lia.
Qed.

Lemma blob_blob_forces_missing r_vectors kwargs :
  2 ≤ length r_vectors → ¬ has_keys blob_blob_keys kwargs →
  calc_blob_blob_forces_python r_vectors kwargs = Raise TypeError.
Proof.
  intros Hlen Hkeys. unfold calc_blob_blob_forces_python. rewrite size_div_3.
  unfold range, range2.
  replace (length r_vectors - 1) with (S (length r_vectors - 2)) by lia.
  cbn [seq]. rewrite for_each_cons.
  replace (length r_vectors - (0 + 1)) with (S (length r_vectors - 2)) by lia.
  cbn [seq Nat.add]. rewrite for_each_cons.
  destruct (getitem_lt r_vectors 1) as (r1 & _ & ->); [lia|].
  destruct (getitem_lt r_vectors 0) as (r0 & _ & ->); [lia|].
  cbn [mbind result_bind]. cbv zeta.
  by rewrite blob_blob_force_missing.
Qed.

Lemma blob_blob_forces_zero r_vectors kwargs :
  2 ≤ length r_vectors → has_keys blob_blob_keys kwargs →
  debey_length_zero kwargs →
  calc_blob_blob_forces_python r_vectors kwargs = Raise ZeroDivisionError.
Proof.
  intros Hlen Hkeys Hzero. unfold calc_blob_blob_forces_python.
  rewrite size_div_3. unfold range, range2.
  replace (length r_vectors - 1) with (S (length r_vectors - 2)) by lia.
  cbn [seq]. rewrite for_each_cons.
  replace (length r_vectors - (0 + 1)) with (S (length r_vectors - 2)) by lia.
  cbn [seq Nat.add]. rewrite for_each_cons.
  destruct (getitem_lt r_vectors 1) as (r1 & _ & ->); [lia|].
  destruct (getitem_lt r_vectors 0) as (r0 & _ & ->); [lia|].
  cbn [mbind result_bind]. cbv zeta.
  by rewrite blob_blob_force_zero.
Qed.

Lemma blob_row_single (r : vec num) kwargs (i : nat) (ri : vec num) :
  [r] !! i = Some ri → blob_row [r] kwargs i ri = vzero.
Proof. destruct i as [|i]; [|done]. by intros [= <-]. Qed.

(** What the call returns, when it returns. *)
Lemma blob_blob_forces_returned r_vectors kwargs forces :
  calc_blob_blob_forces_python r_vectors kwargs = Ok forces →
  forces = imap (blob_row r_vectors kwargs) r_vectors.
Proof.
  intros Hrun.
  destruct (decide (length r_vectors ≤ 1)) as [Hlen|Hlen].
  { rewrite blob_blob_forces_few in Hrun by done. injection Hrun as <-.
    destruct r_vectors as [|r [|r' r_vectors]]; [done| |simpl in Hlen; lia].
    done. }
  destruct (pair_force_cases kwargs) as [Hn|[[Hk Hz]|Hgiven]].
  - rewrite blob_blob_forces_missing in Hrun by (done || lia). done.
  - rewrite blob_blob_forces_zero in Hrun by (done || lia). done.
  - rewrite blob_blob_forces_given in Hrun by done. by injection Hrun.
Qed.

(** X4.  [calc_blob_blob_forces_python] raises only for two blobs or more,
    and then in two cases: [TypeError] when a keyword argument of
    [blob_blob_force] is missing, and [ZeroDivisionError] when both are
    given and [debey_length] is zero.  In every other case it returns an
    array with one row for each blob. *)
Theorem blob_blob_forces_raise_iff r_vectors kwargs :
  (∀ e, calc_blob_blob_forces_python r_vectors kwargs = Raise e ↔
        2 ≤ length r_vectors ∧
        (e = TypeError ∧ ¬ has_keys blob_blob_keys kwargs ∨
         e = ZeroDivisionError ∧ has_keys blob_blob_keys kwargs ∧
           debey_length_zero kwargs)) ∧
  (length r_vectors ≤ 1 ∨ pair_force_given kwargs →
     ∃ forces, calc_blob_blob_forces_python r_vectors kwargs = Ok forces ∧
               length forces = length r_vectors).
Proof.
  assert (length r_vectors ≤ 1 ∨ pair_force_given kwargs →
     ∃ forces, calc_blob_blob_forces_python r_vectors kwargs = Ok forces ∧
               length forces = length r_vectors) as Hok.
  { intros [Hlen|Hgiven].
    - rewrite blob_blob_forces_few by done. eexists. split; [done|].
      apply length_replicate.
    - rewrite blob_blob_forces_given by done. eexists. split; [done|].
      apply length_imap. }
  split; [|exact Hok]. intros e. split.
  - intros Hraise.
    destruct (decide (length r_vectors ≤ 1)) as [Hlen|Hlen].
    { destruct (Hok (or_introl Hlen)) as (? & Hf & _). congruence. }
    split; [lia|].
    destruct (pair_force_cases kwargs) as [Hn|[[Hk Hz]|Hgiven]].
    + rewrite blob_blob_forces_missing in Hraise by (done || lia).
      injection Hraise as <-. by left.
    + rewrite blob_blob_forces_zero in Hraise by (done || lia).
      injection Hraise as <-. by right.
    + destruct (Hok (or_intror Hgiven)) as (? & Hf & _). congruence.
  - intros (Hlen & [[-> Hn]|(-> & Hk & Hz)]).
    + by apply blob_blob_forces_missing.
    + by apply blob_blob_forces_zero.
Qed.

(** X5.  When [calc_blob_blob_forces_python] returns, the row it returns
    for the blob [i] at [ri] is obtained from zero by subtracting the force
    of [ri - rp] for each earlier blob [rp], in their order, and then
    adding the force of [rj - ri] for each later blob [rj], in theirs.  No
    law of arithmetic is used: the rows are these with rounded operations
    too.  The call returns when both keyword arguments of [blob_blob_force]
    are given and [debey_length] is not zero. *)
Theorem blob_blob_forces_rows r_vectors kwargs :
  (∀ forces, calc_blob_blob_forces_python r_vectors kwargs = Ok forces →
     length forces = length r_vectors ∧
     ∀ i ri, r_vectors !! i = Some ri →
       forces !! i = Some (blob_row r_vectors kwargs i ri)) ∧
  (pair_force_given kwargs →
     ∃ forces, calc_blob_blob_forces_python r_vectors kwargs = Ok forces).
Proof.
  split.
  - intros forces ->%blob_blob_forces_returned.
    split; [apply length_imap|].
    intros i ri Hi. by rewrite list_lookup_imap, Hi.
  - intros Hgiven. rewrite blob_blob_forces_given by done. by eexists.
Qed.

End BlobBlobRows.

Section BlobBlobSum.
Context {num : Type} `{Number num}.


End BlobBlobSum.

Lemma yukawa_has_keys : has_keys blob_blob_keys yukawa.
Proof.
  apply has_blob_blob_keys. unfold yukawa. split.
  - exists 1%R. apply lookup_insert_eq.
  - exists 2%R. rewrite lookup_insert_ne by done. apply lookup_singleton_eq.
Qed.

Lemma yukawa_zero_length_zero :
  has_keys blob_blob_keys yukawa_zero_length ∧
  debey_length_zero yukawa_zero_length.
Proof.
  unfold yukawa_zero_length. split.
  - apply has_blob_blob_keys. split.
    + exists 1%R. apply lookup_insert_eq.
    + exists 0%R. rewrite lookup_insert_ne by done. apply lookup_singleton_eq.
  - exists 0%R. split.
    + rewrite lookup_insert_ne by done. apply lookup_singleton_eq.
    + simpl. by destruct (Req_dec_T 0 0).
Qed.

Lemma blob_blob_forces_raise_iff_witness :
  (2 ≤ length three_blobs ∧ ¬ has_keys blob_blob_keys (∅ : gmap string R) ∧
   calc_blob_blob_forces_python three_blobs ∅ = Raise TypeError) ∧
  (has_keys blob_blob_keys yukawa_zero_length ∧
   debey_length_zero yukawa_zero_length ∧
   calc_blob_blob_forces_python three_blobs yukawa_zero_length
     = Raise ZeroDivisionError) ∧
  (pair_force_given yukawa ∧
   ∃ forces, calc_blob_blob_forces_python three_blobs yukawa = Ok forces ∧
             length forces = length three_blobs).
Proof.
  assert (2 ≤ length three_blobs) as Hlen by (simpl; lia).
  assert (¬ has_keys blob_blob_keys (∅ : gmap string R)) as Hkeys.
  { intros [[? Hl] _]%has_blob_blob_keys. by rewrite lookup_empty in Hl. }
  destruct yukawa_zero_length_zero as [Hk Hz].
  split; [|split].
  - split; [exact Hlen|]. split; [exact Hkeys|].
    exact (proj2 (proj1 (blob_blob_forces_raise_iff three_blobs ∅) TypeError)
             (conj Hlen (or_introl (conj eq_refl Hkeys)))).
  - split; [exact Hk|]. split; [exact Hz|].
    exact (proj2 (proj1 (blob_blob_forces_raise_iff three_blobs
                           yukawa_zero_length) ZeroDivisionError)
             (conj Hlen (or_intror (conj eq_refl (conj Hk Hz))))).
  - split; [exact yukawa_given|].
    exact (proj2 (blob_blob_forces_raise_iff three_blobs yukawa)
             (or_intror yukawa_given)).
Defined.


Lemma blob_blob_forces_rows_witness :
  pair_force_given yukawa ∧
  ∃ forces,
    calc_blob_blob_forces_python three_blobs yukawa = Ok forces ∧
    length forces = length three_blobs ∧
    ∀ i ri, three_blobs !! i = Some ri →
      forces !! i = Some (blob_row three_blobs yukawa i ri).
Proof.
  split; [exact yukawa_given|].
  destruct (blob_blob_forces_rows three_blobs yukawa) as [Hrows Hreturns].
  destruct (Hreturns yukawa_given) as [forces Hforces].
  exists forces. split; [exact Hforces|]. exact (Hrows forces Hforces).
Defined.

(** ** calc_blob_blob_forces_python under a translation *)

Section ForEachExt.
Context {A S : Type}.

Lemma for_each_ext (l : list A) (body body' : A → S → result S) (s : S) :
  (∀ a t, body a t = body' a t) →
  for_each l body s = for_each l body' s.
Proof.
  intros Hbody. revert s. induction l as [|a l IH]; intros s; [done|].
  rewrite !for_each_cons, Hbody. destruct (body' a s); [apply IH|done].
Qed.

End ForEachExt.

Section Translation.
Context {num : Type} `{ExactArith num}.
Implicit Types (r t : vec num) (r_vectors : list (vec num)).

Lemma nopp_unique (x y : num) : nadd x y = nzero → y = nopp x.
Proof.
  intros Hxy. rewrite <- (nadd_0_l y), <- (nadd_opp_r x).
  rewrite (nadd_comm x), <- nadd_assoc, Hxy.
  by rewrite nadd_comm, nadd_0_l.
Qed.

Lemma nopp_add (x y : num) : nopp (nadd x y) = nadd (nopp x) (nopp y).
Proof.
  symmetry. apply nopp_unique.
  rewrite nadd_interchange, !nadd_opp_r. apply nadd_0_l.
Qed.

Lemma nsub_add_add (x y c : num) : nsub (nadd x c) (nadd y c) = nsub x y.
Proof.
  rewrite !nsub_def, nopp_add, nadd_interchange, nadd_opp_r.
  by rewrite (nadd_comm _ nzero), nadd_0_l.
Qed.

Lemma vsub_add_add r1 r2 t : vsub (vadd r1 t) (vadd r2 t) = vsub r1 r2.
Proof.
  destruct r1 as [[a b] c], r2 as [[x y] z], t as [[p q] s].
  unfold vsub, vadd. by rewrite !nsub_add_add.
Qed.

(** X6.  In exact arithmetic the blob-blob forces depend on the positions
    through their differences only: moving every blob by the same vector
    [t] changes nothing in what [calc_blob_blob_forces_python] returns or
    raises. *)
Theorem blob_blob_forces_translation t r_vectors (kwargs : gmap string num) :
  calc_blob_blob_forces_python ((fun r => vadd r t) <$> r_vectors) kwargs
  = calc_blob_blob_forces_python r_vectors kwargs.
Proof.
  unfold calc_blob_blob_forces_python, size. rewrite length_fmap.
  apply for_each_ext. intros i forces.
  apply for_each_ext. intros j forces'.
  unfold getitem. rewrite !list_lookup_fmap.
  destruct (r_vectors !! j) as [rj|]; [|done].
  destruct (r_vectors !! i) as [ri|]; [|done].
  cbn [fmap option_fmap option_map mbind result_bind].
  by rewrite vsub_add_add.
Qed.

End Translation.

Lemma blob_blob_forces_translation_witness :
  calc_blob_blob_forces_python
    ((fun r => vadd r (5, 6, 7)%R) <$> three_blobs) yukawa
  = calc_blob_blob_forces_python three_blobs yukawa.
Proof. exact (blob_blob_forces_translation (5, 6, 7)%R three_blobs yukawa). Defined.

(** ** blob_external_force and calc_one_blob_forces *)

Section OneBlobForces.
Context {num : Type} `{Number num} `{One num}.
Implicit Types (r : vec num) (r_vectors forces : list (vec num))
  (kwargs : gmap string num).

(** The statement in the loop,
    [force_blobs[blob] += blob_external_force(r_vectors[blob], ...)]. *)
Local Abbreviation add_external r_vectors kwargs :=
  (fun (blob : nat) (force_blobs : list (vec _)) =>
     fb ← getitem force_blobs blob;
     r ← getitem r_vectors blob;
     f ← blob_external_force r kwargs;
     Ok (<[blob := vadd fb f]> force_blobs)).

Lemma has_one_blob_keys kwargs :
  has_keys one_blob_keys kwargs ↔
  is_Some (kwargs !! "blob_mass") ∧ is_Some (kwargs !! "blob_radius") ∧
  is_Some (kwargs !! "g") ∧ is_Some (kwargs !! "repulsion_strength_wall") ∧
  is_Some (kwargs !! "debey_length_wall").
Proof.
  unfold has_keys, one_blob_keys. rewrite !Forall_cons, Forall_nil. tauto.
Qed.

Lemma blob_external_force_has_keys r kwargs :
  has_keys one_blob_keys kwargs →
  blob_external_force r kwargs = Ok (external_force_of r kwargs).
Proof.
  intros ([m Hm] & [a Ha] & [g Hg] & [e He] & [b Hb])%has_one_blob_keys.
  unfold external_force_of, blob_external_force.
  rewrite Hm, Ha, Hg, He, Hb. by destruct r as [[x y] z].
Qed.

Lemma blob_external_force_missing r kwargs :
  ¬ has_keys one_blob_keys kwargs →
  blob_external_force r kwargs = Raise TypeError.
Proof.
  rewrite has_one_blob_keys. unfold blob_external_force. intros Hn.
  destruct r as [[x y] z].
  destruct (kwargs !! "g") as [g|]; [|done].
  destruct (kwargs !! "blob_mass") as [m|]; [|done].
  destruct (kwargs !! "repulsion_strength_wall") as [e|]; [|done].
  destruct (kwargs !! "blob_radius") as [a|]; [|done].
  destruct (kwargs !! "debey_length_wall") as [b|]; [|done].
  exfalso. apply Hn. by repeat split.
Qed.

Lemma blob_external_force_height r r' kwargs :
  height r = height r' →
  blob_external_force r kwargs = blob_external_force r' kwargs.
Proof.
  destruct r as [[x y] z], r' as [[x' y'] z']. unfold height. simpl.
  intros ->. done.
Qed.

(** The loop over the blobs, from blob [a] for [n] rounds: the rows before
    [a] are done, the others are still zero. *)
Lemma one_blob_loop r_vectors kwargs (a n : nat) (done_ : list (vec num)) :
  has_keys one_blob_keys kwargs →
  length done_ = a → a + n ≤ length r_vectors →
  for_each (seq a n) (add_external r_vectors kwargs)
    (done_ ++ replicate (length r_vectors - a) vzero)
  = Ok (done_
        ++ ((fun r => vadd vzero (external_force_of r kwargs))
              <$> take n (drop a r_vectors))
        ++ replicate (length r_vectors - a - n) vzero).
Proof.
  intros Hkeys. revert a done_.
  induction n as [|n IH]; intros a done_ Hdone Han.
  - simpl. by rewrite Nat.sub_0_r.
  - destruct (lookup_lt_is_Some_2 r_vectors a) as [r Hr]; [lia|].
    cbn [seq]. rewrite for_each_cons.
    rewrite (getitem_Some (done_ ++ replicate _ vzero) a vzero)
      by (rewrite lookup_app_r by lia; apply lookup_replicate_2; lia).
    cbn [mbind result_bind].
    rewrite (getitem_Some _ _ _ Hr); cbn [mbind result_bind].
    rewrite (blob_external_force_has_keys _ _ Hkeys).
    cbn [mbind result_bind].
    replace (length r_vectors - a) with (S (length r_vectors - S a)) at 1
      by lia.
    rewrite replicate_S, insert_app_r_alt by lia.
    replace (a - length done_) with 0 by lia. cbn [insert list_insert].
    rewrite cons_middle, app_assoc.
    rewrite (IH (S a)) by (rewrite ?length_app; simpl; lia).
    rewrite (drop_S _ _ _ Hr). cbn [take fmap list_fmap].
    rewrite <- app_assoc. cbn [app].
    by replace (length r_vectors - S a - n) with (length r_vectors - a - S n)
      by lia.
Qed.

Lemma one_blob_forces_has_keys r_vectors kwargs :
  has_keys one_blob_keys kwargs →
  calc_one_blob_forces r_vectors kwargs
  = Ok ((fun r => vadd vzero (external_force_of r kwargs)) <$> r_vectors).
Proof.
  intros Hkeys. unfold calc_one_blob_forces, range. rewrite size_div_3.
  pose proof (one_blob_loop r_vectors kwargs 0 (length r_vectors) []
                Hkeys eq_refl) as Hloop.
  rewrite Nat.sub_0_r in Hloop. cbn [app] in Hloop. rewrite Hloop by lia.
  rewrite drop_0, firstn_all, Nat.sub_diag. cbn [replicate].
  by rewrite app_nil_r.
Qed.

Lemma one_blob_forces_missing r_vectors kwargs :
  r_vectors ≠ [] → ¬ has_keys one_blob_keys kwargs →
  calc_one_blob_forces r_vectors kwargs = Raise TypeError.
Proof.
  intros Hne Hkeys. destruct r_vectors as [|r r_vectors]; [done|].
  unfold calc_one_blob_forces, range. rewrite size_div_3.
  cbn [length seq replicate]. rewrite for_each_cons.
  unfold getitem. cbn [lookup list_lookup mbind result_bind].
  by rewrite blob_external_force_missing.
Qed.

(** X7.  [calc_one_blob_forces] returns the empty array when there is no
    blob, raises [TypeError] when there is a blob and one of the five
    keyword arguments of [blob_external_force] is missing, and otherwise
    returns one row for each blob: zero plus the external force on that
    blob. *)
Theorem one_blob_forces_outcome r_vectors kwargs :
  (r_vectors = [] → calc_one_blob_forces r_vectors kwargs = Ok []) ∧
  (r_vectors ≠ [] → ¬ has_keys one_blob_keys kwargs →
     calc_one_blob_forces r_vectors kwargs = Raise TypeError) ∧
  (has_keys one_blob_keys kwargs →
     ∃ forces,
       calc_one_blob_forces r_vectors kwargs = Ok forces ∧
       length forces = length r_vectors ∧
       ∀ i r, r_vectors !! i = Some r →
         ∃ f, blob_external_force r kwargs = Ok f ∧
              forces !! i = Some (vadd vzero f)).
Proof.
  split; [|split].
  - by intros ->.
  - apply one_blob_forces_missing.
  - intros Hkeys. rewrite one_blob_forces_has_keys by done.
    eexists. split; [done|]. split; [apply length_fmap|].
    intros i r Hr. exists (external_force_of r kwargs).
    split; [by apply blob_external_force_has_keys|].
    by rewrite list_lookup_fmap, Hr.
Qed.

(** X8.  The one-blob forces depend on the heights of the blobs only: two
    arrays of positions with the same heights give the same outcome of
    [calc_one_blob_forces], whatever the other two coordinates. *)
Theorem one_blob_forces_heights r_vectors (r_vectors' : list (vec num)) kwargs :
  height <$> r_vectors = height <$> r_vectors' →
  calc_one_blob_forces r_vectors kwargs
  = calc_one_blob_forces r_vectors' kwargs.
Proof.
  intros Hh. unfold calc_one_blob_forces, size.
  assert (length r_vectors = length r_vectors') as <-
    by (by rewrite <- (length_fmap height r_vectors), Hh, length_fmap).
  apply for_each_ext. intros blob forces.
  destruct (getitem forces blob) as [fb|]; [|done].
  cbn [mbind result_bind]. unfold getitem.
  assert (height <$> r_vectors !! blob = height <$> r_vectors' !! blob) as Hb
    by (by rewrite <- !list_lookup_fmap, Hh).
  destruct (r_vectors !! blob) as [r|], (r_vectors' !! blob) as [r'|];
    try done.
  injection Hb as Hb. cbn [mbind result_bind].
  by rewrite (blob_external_force_height r r' kwargs Hb).
Qed.

End OneBlobForces.

Section OneBlobForcesExact.
Context {num : Type} `{ExactArith num} `{One num}.

Lemma external_force_vertical (r : vec num) (kwargs : gmap string num) :
  has_keys one_blob_keys kwargs →
  (vadd vzero (external_force_of r kwargs)).1 = (nzero, nzero).
Proof.
  intros ([m Hm] & [a Ha] & [g Hg] & [e He] & [b Hb])%has_one_blob_keys.
  unfold external_force_of, blob_external_force.
  rewrite Hm, Ha, Hg, He, Hb. destruct r as [[x y] z].
  unfold vadd, vscale, vzero. cbn [fst].
  by rewrite !nmul_0_r, !nadd_0_l.
Qed.

(** X9.  In exact arithmetic the one-blob forces are vertical: every row
    [calc_one_blob_forces] returns has its first two components zero. *)
Theorem one_blob_forces_vertical (r_vectors forces : list (vec num))
    (kwargs : gmap string num) :
  has_keys one_blob_keys kwargs →
  calc_one_blob_forces r_vectors kwargs = Ok forces →
  Forall (fun f => f.1 = (nzero, nzero)) forces.
Proof.
  intros Hkeys. rewrite one_blob_forces_has_keys by done. intros [= <-].
  apply Forall_fmap, Forall_forall. intros r _.
  by apply external_force_vertical.
Qed.

End OneBlobForcesExact.

Lemma wall_kwargs_has_keys : has_keys one_blob_keys wall_kwargs.
Proof.
  apply has_one_blob_keys. unfold wall_kwargs.
  repeat split; eexists;
    repeat (rewrite lookup_insert_ne by done);
    first [apply lookup_insert_eq | apply lookup_singleton_eq].
Qed.

Lemma one_blob_forces_outcome_witness :
  (three_blobs ≠ [] ∧ ¬ has_keys one_blob_keys yukawa ∧
   calc_one_blob_forces three_blobs yukawa = Raise TypeError) ∧
  (has_keys one_blob_keys wall_kwargs ∧
   ∃ forces,
     calc_one_blob_forces three_blobs wall_kwargs = Ok forces ∧
     length forces = length three_blobs ∧
     ∀ i r, three_blobs !! i = Some r →
       ∃ f, blob_external_force r wall_kwargs = Ok f ∧
            forces !! i = Some (vadd vzero f)).
Proof.
  assert (three_blobs ≠ []) as Hne by done.
  assert (¬ has_keys one_blob_keys yukawa) as Hkeys.
  { intros ([? Hm] & _)%has_one_blob_keys. unfold yukawa in Hm.
    rewrite lookup_insert_ne, lookup_singleton_ne in Hm by done. done. }
  split.
  - split; [exact Hne|]. split; [exact Hkeys|].
    exact (proj1 (proj2 (one_blob_forces_outcome three_blobs yukawa))
             Hne Hkeys).
  - split; [exact wall_kwargs_has_keys|].
    exact (proj2 (proj2 (one_blob_forces_outcome three_blobs wall_kwargs))
             wall_kwargs_has_keys).
Defined.

Lemma one_blob_forces_heights_witness :
  height <$> three_blobs = height <$> [(4, 5, 0); (6, 7, 0); (8, 9, 0)]%R ∧
  calc_one_blob_forces three_blobs wall_kwargs
  = calc_one_blob_forces [(4, 5, 0); (6, 7, 0); (8, 9, 0)]%R wall_kwargs.
Proof.
  split; [reflexivity|].
  exact (one_blob_forces_heights three_blobs
           [(4, 5, 0); (6, 7, 0); (8, 9, 0)]%R wall_kwargs eq_refl).
Defined.

Lemma one_blob_forces_vertical_witness :
  has_keys one_blob_keys wall_kwargs ∧
  ∃ forces, calc_one_blob_forces three_blobs wall_kwargs = Ok forces ∧
            Forall (fun f => f.1 = (0%R, 0%R)) forces.
Proof.
  split; [exact wall_kwargs_has_keys|].
  exists ((fun r => vadd vzero (external_force_of r wall_kwargs))
            <$> three_blobs).
  assert (calc_one_blob_forces three_blobs wall_kwargs
          = Ok ((fun r => vadd vzero (external_force_of r wall_kwargs))
                  <$> three_blobs)) as Hf
    by exact (one_blob_forces_has_keys three_blobs wall_kwargs
                wall_kwargs_has_keys).
  split; [exact Hf|].
  exact (one_blob_forces_vertical three_blobs _ wall_kwargs
           wall_kwargs_has_keys Hf).
Defined.

(** ** The slip functions *)

#[global] Instance R_one_laws : OneLaws R.
Proof. split; intros; simpl; unfold none, R_one; lra. Qed.

Section Slip.
Context {num : Type} `{Number num} `{One num}.
Implicit Types (body : Body num) (memory : nat → vec num).

Lemma setitem_lt {A} (l : list A) (i : nat) (a : A) :
  i < length l → setitem l i a = Ok (<[i := a]> l).
Proof. intros Hi. unfold setitem. by rewrite decide_True. Qed.

(** The loop [slip[i] = v], from row [a] for [n] rounds: it overwrites the
    next [n] rows, whatever they held. *)
Lemma fill_loop (v : vec num) (a n : nat) (done_ rest : list (vec num)) :
  length done_ = a → n ≤ length rest →
  for_each (seq a n) (fun i slip => setitem slip i v) (done_ ++ rest)
  = Ok (done_ ++ replicate n v ++ drop n rest).
Proof.
  revert a done_ rest.
  induction n as [|n IH]; intros a done_ rest Hdone Hn; [done|].
  destruct rest as [|x rest]; [simpl in Hn; lia|].
  cbn [seq]. rewrite for_each_cons.
  rewrite setitem_lt by (rewrite length_app; simpl; lia).
  cbn [mbind result_bind].
  rewrite insert_app_r_alt by lia.
  replace (a - length done_) with 0 by lia. cbn [insert list_insert].
  rewrite cons_middle, app_assoc.
  rewrite (IH (S a)) by (rewrite ?length_app; simpl in *; lia).
  by rewrite <- app_assoc.
Qed.

Lemma active_body_slip_fills memory body :
  active_body_slip memory body
  = Ok (replicate (Nblobs body)
          (vscale none
             (let '(row0, row1, row2) := orientation_rotation_matrix body in
              (vdot row0 (none, nzero, nzero), vdot row1 (none, nzero, nzero),
               vdot row2 (none, nzero, nzero))))).
Proof.
  pose proof (fill_loop
    (vscale none
       (let '(row0, row1, row2) := orientation_rotation_matrix body in
        (vdot row0 (none, nzero, nzero), vdot row1 (none, nzero, nzero),
         vdot row2 (none, nzero, nzero))))
    0 (Nblobs body) [] (memory <$> seq 0 (Nblobs body)) eq_refl) as Hloop.
  cbn [app] in Hloop.
  rewrite drop_ge, app_nil_r in Hloop by (by rewrite length_fmap, length_seq).
  apply Hloop. by rewrite length_fmap, length_seq.
Qed.

(** X10.  [active_body_slip] returns one row for each blob of the body and
    all rows are the same vector; no row of the array [np.empty] gave is
    left as it was found, so the result does not depend on what the memory
    held. *)
Theorem active_body_slip_uniform body :
  ∃ v, ∀ memory,
    active_body_slip memory body = Ok (replicate (Nblobs body) v).
Proof. eexists. intros memory. apply active_body_slip_fills. Qed.

(** X12.  [set_slip_by_ID] gives the body a slip function and changes no
    other attribute.  Called on the body, that function returns an array
    with one row for each blob; for every ID other than 'active_body' all
    its rows are zero. *)
Theorem set_slip_by_ID_then_call memory body :
  ∃ f slip,
    function_slip (set_slip_by_ID body) = Some f ∧
    call_slip f memory (set_slip_by_ID body) = Ok slip ∧
    length slip = Nblobs body ∧
    (ID body ≠ "active_body" → slip = replicate (Nblobs body) vzero) ∧
    ID (set_slip_by_ID body) = ID body ∧
    Nblobs (set_slip_by_ID body) = Nblobs body ∧
    orientation_rotation_matrix (set_slip_by_ID body)
      = orientation_rotation_matrix body.
Proof.
  unfold set_slip_by_ID.
  destruct (decide (ID body = "active_body")) as [Hid|Hid].
  - exists Fn_active_body_slip. eexists. split; [done|].
    split; [apply active_body_slip_fills|].
    split; [apply length_replicate|done].
  - exists Fn_default_zero_blobs. eexists. split; [done|].
    split; [done|]. split; [apply length_replicate|done].
Qed.

End Slip.

Section SlipExact.
Context {num : Type} `{ExactArith num} `{One num} `{!OneLaws num}.

Lemma vdot_x_axis (row : vec num) : vdot row (none, nzero, nzero) = row.1.1.
Proof.
  destruct row as [[a b] c]. unfold vdot. cbn [fst].
  rewrite !nmul_0_r, (nmul_comm a), nmul_1_l.
  by rewrite (nadd_comm a), nadd_0_l, nadd_comm, nadd_0_l.
Qed.

(** X11.  In exact arithmetic every row of the slip [active_body_slip]
    returns is the first column of the rotation matrix of the body, the
    x-axis turned with the body. *)
Theorem active_body_slip_first_column (memory : nat → vec num)
    (body : Body num) :
  active_body_slip memory body
  = Ok (replicate (Nblobs body)
          (first_column (orientation_rotation_matrix body))).
Proof.
  rewrite active_body_slip_fills. do 2 f_equal.
  destruct (orientation_rotation_matrix body) as [[row0 row1] row2].
  unfold first_column, vscale. by rewrite !vdot_x_axis, !nmul_1_l.
Qed.

End SlipExact.

Lemma active_body_slip_first_column_witness :
  active_body_slip (fun _ => (9, 9, 9)%R) (rod "active_body")
  = Ok (replicate (Nblobs (rod "active_body"))
          (first_column (orientation_rotation_matrix (rod "active_body")))).
Proof.
  exact (active_body_slip_first_column (fun _ => (9, 9, 9)%R)
           (rod "active_body")).
Defined.

Lemma set_slip_by_ID_then_call_witness :
  ID (rod "passive") ≠ "active_body" ∧
  ∃ f slip,
    function_slip (set_slip_by_ID (rod "passive")) = Some f ∧
    call_slip f (fun _ => (9, 9, 9)%R) (set_slip_by_ID (rod "passive"))
      = Ok slip ∧
    length slip = Nblobs (rod "passive") ∧
    (ID (rod "passive") ≠ "active_body" →
       slip = replicate (Nblobs (rod "passive")) vzero) ∧
    ID (set_slip_by_ID (rod "passive")) = ID (rod "passive") ∧
    Nblobs (set_slip_by_ID (rod "passive")) = Nblobs (rod "passive") ∧
    orientation_rotation_matrix (set_slip_by_ID (rod "passive"))
      = orientation_rotation_matrix (rod "passive").
Proof.
  split; [done|].
  exact (set_slip_by_ID_then_call (fun _ => (9, 9, 9)%R) (rod "passive")).
Defined.

(** ** The force on each blob, in exact arithmetic *)

Section NetForce.
Context {num : Type} `{ExactArith num} `{!SignLaws num}.
Implicit Types (r f acc : vec num) (r_vectors : list (vec num))
  (kwargs : gmap string num).

Lemma nopp_nopp (x : num) : nopp (nopp x) = x.
Proof.
  symmetry. apply nopp_unique. by rewrite nadd_comm, nadd_opp_r.
Qed.

Lemma nsub_swap (x y : num) : nsub x y = nopp (nsub y x).
Proof. by rewrite !nsub_def, nopp_add, nopp_nopp, nadd_comm. Qed.

Lemma nsub_nopp (x y : num) : nsub x (nopp y) = nadd x y.
Proof. by rewrite nsub_def, nopp_nopp. Qed.

Lemma vsub_swap r1 r2 : vsub r1 r2 = vopp (vsub r2 r1).
Proof.
  destruct r1 as [[a b] c], r2 as [[x y] z]. unfold vsub, vopp.
  by rewrite (nsub_swap a), (nsub_swap b), (nsub_swap c).
Qed.

Lemma vsub_vopp acc f : vsub acc (vopp f) = vadd acc f.
Proof.
  destruct acc as [[a b] c], f as [[x y] z]. unfold vsub, vadd, vopp.
  by rewrite !nsub_nopp.
Qed.

Lemma vopp_vzero : vopp (vzero (num:=num)) = vzero.
Proof.
  assert (nopp (nzero (num:=num)) = nzero) as Hz
    by (symmetry; apply nopp_unique, nadd_0_l).
  unfold vopp, vzero. by rewrite Hz.
Qed.

Lemma force_of_vopp r kwargs :
  force_of (vopp r) kwargs = vopp (force_of r kwargs).
Proof.
  unfold force_of, blob_blob_force. rewrite norm_vopp.
  destruct (kwargs !! "repulsion_strength") as [eps|];
    [|cbn [mbind result_bind]; by rewrite vopp_vzero].
  destruct (kwargs !! "debey_length") as [b|];
    [|cbn [mbind result_bind]; by rewrite vopp_vzero].
  destruct (truediv eps b) as [q|]; cbn [mbind result_bind];
    [|by rewrite vopp_vzero].
  by rewrite vdiv_vscale_vopp.
Qed.

(** What a blob has received from the earlier blobs is the sum of their
    forces on it. *)
Lemma received_added r_vectors kwargs (k : nat) (ri : vec num) :
  received r_vectors kwargs k ri = added kwargs ri vzero (take k r_vectors).
Proof.
  unfold received, added. generalize (vzero (num:=num)).
  induction (take k r_vectors) as [|rp l IH]; intros acc; [done|].
  cbn [foldl]. rewrite IH. f_equal.
  rewrite (vsub_swap ri rp), force_of_vopp. apply vsub_vopp.
Qed.

(** X13.  In exact arithmetic, with the keyword arguments of
    [blob_blob_force] given, row [i] of what [calc_blob_blob_forces_python]
    returns is the sum, over all the other blobs [rj] in their order, of the
    force [blob_blob_force] gives for [rj - ri], where [ri] is blob [i]. *)
Theorem blob_blob_forces_net r_vectors kwargs (forces : list (vec num)) :
  has_keys blob_blob_keys kwargs →
  calc_blob_blob_forces_python r_vectors kwargs = Ok forces →
  ∀ i ri, r_vectors !! i = Some ri →
    forces !! i = Some (added kwargs ri vzero (delete i r_vectors)).
Proof.
  intros Hkeys ->%blob_blob_forces_returned.
  intros i ri Hi. rewrite list_lookup_imap, Hi.
  cbn [fmap option_fmap option_map]. f_equal.
  unfold blob_row. rewrite received_added.
  rewrite delete_take_drop. unfold added. by rewrite foldl_app.
Qed.

End NetForce.

Lemma blob_blob_forces_net_witness :
  has_keys blob_blob_keys yukawa ∧
  ∃ forces,
    calc_blob_blob_forces_python three_blobs yukawa = Ok forces ∧
    ∀ i ri, three_blobs !! i = Some ri →
      forces !! i = Some (added yukawa ri vzero (delete i three_blobs)).
Proof.
  split; [exact yukawa_has_keys|].
  exists (imap (blob_row three_blobs yukawa) three_blobs).
  assert (calc_blob_blob_forces_python three_blobs yukawa
          = Ok (imap (blob_row three_blobs yukawa) three_blobs)) as Hf
    by exact (blob_blob_forces_given three_blobs yukawa yukawa_given).
  split; [exact Hf|].
  exact (blob_blob_forces_net three_blobs yukawa _ yukawa_has_keys Hf).
Defined.

(** ** The blob-blob forces in doubles *)

(** For two blobs at the same place the force is NaN in each component,
    whatever numpy's [exp] returns: the factor in front of [r] is infinite
    or NaN, [r] is zero, and the quotient by [r_norm**2 = 0] is NaN. *)
Lemma coincident_blobs_nan (np_exp : spec_float → spec_float) :
  @calc_blob_blob_forces_python _ (binary64 np_exp) coincident_blobs yukawa64
  = Ok [nan_row; nan_row].
Proof.
  vm_compute.
  destruct (np_exp (S754_zero true)) as [s|s| |s m e]; try reflexivity;
    destruct s; reflexivity.
Qed.

